(** * The 24-hour API performance report (main.py)

    A shallow embedding of [main.py]: the aggregation of the fetched
    documents ([analyze_records]), the report writer ([generate_csv]), the
    mail step ([send_email_with_csv], [EmailService.send_email]) and the
    orchestration ([main]), followed by the properties of the report that
    the specification states.

    Python dictionaries are finite maps ([gmap]); Python integers are [Z];
    the effects of the program (console output, the report file, the SMTP
    conversation) are recorded in an explicit world that every effectful
    function threads. *)

From Stdlib Require Import ZArith String Ascii DecimalString.
From stdpp Require Import gmap strings list fin_maps sorting.

Local Open Scope string_scope.
Local Open Scope list_scope.
Local Open Scope Z_scope.

(** ** Python values held by a document field *)

(** The fields read by the program hold a string ([user_name],
    [enrichment_source]), a boolean ([lusha_api_success], [phone_found]) or
    BSON null, which pymongo hands over as [None]. *)
Inductive pyval : Type :=
  | PNone : pyval
  | PBool : bool → pyval
  | PStr : string → pyval.

Global Instance pyval_eq_dec : EqDecision pyval.
Proof. solve_decision. Defined.

Definition pyval_to_sum (v : pyval) : unit + (bool + string) :=
  match v with
  | PNone => inl ()
  | PBool b => inr (inl b)
  | PStr s => inr (inr s)
  end.

Definition pyval_of_sum (x : unit + (bool + string)) : pyval :=
  match x with
  | inl _ => PNone
  | inr (inl b) => PBool b
  | inr (inr s) => PStr s
  end.

Global Instance pyval_countable : Countable pyval.
Proof.
  apply (inj_countable' pyval_to_sum pyval_of_sum).
  intros [| b | s]; reflexivity.
Defined.

(** A document of the collection: a Python [dict] from field names to
    values.  A field can be absent, or present with the value [None]. *)
Abbreviation record := (gmap string pyval).

(** [d.get(key)]: the value, [None] when the key is absent. *)
Definition get (d : record) (key : string) : pyval :=
  default PNone (d !! key).

(** [d.get(key, dflt)]: the value, [dflt] when the key is absent. *)
Definition get_default (d : record) (key : string) (dflt : pyval) : pyval :=
  default dflt (d !! key).

(** [v is True], [v is False] and [v == s] for a string literal [s]. *)
Definition is_True (v : pyval) : bool :=
  match v with PBool true => true | _ => false end.

Definition is_False (v : pyval) : bool :=
  match v with PBool false => true | _ => false end.

Definition eq_str (v : pyval) (s : string) : bool :=
  match v with PStr t => bool_decide (t = s) | _ => false end.

(** [sum(1 for r in records if cond(r))]: the generator yields one [1] per
    record that passes, and [sum] adds them up from [0], left to right. *)
Definition sum_if (cond : record → bool) (records : list record) : Z :=
  fold_left (λ acc r, if cond r then acc + 1 else acc) records 0.

(** ** Statistics *)

Module UserStats.
(** One bucket of [user_stats]: the dictionary the [defaultdict] factory
    builds, with its eight integer counters. *)
Record t : Type := mk {
  total : Z;
  success : Z;
  failed : Z;
  lusha_calls : Z;
  lusha_phone_found : Z;
  apollo_calls : Z;
  apollo_phone_found : Z;
  phone_found : Z
}.

(** The value of the [defaultdict] factory. *)
Definition zero : t := mk 0 0 0 0 0 0 0 0.

Global Instance eq_dec : EqDecision t.
Proof. solve_decision. Defined.
End UserStats.

Module Overall.
(** The dictionary under ['overall']. *)
Record t : Type := mk {
  total_calls : Z;
  successful_calls : Z;
  failed_calls : Z;
  apollo_calls : Z;
  lusha_calls : Z;
  phone_found_total : Z;
  phone_not_found_total : Z;
  apollo_phone_found_total : Z;
  lusha_phone_found_total : Z
}.

Global Instance eq_dec : EqDecision t.
Proof. solve_decision. Defined.
End Overall.

(** The dictionary [analyze_records] returns. *)
Record AnalysisResult : Type := mkAnalysis {
  overall : Overall.t;
  user_stats : gmap pyval UserStats.t
}.

(** ** [analyze_records] *)

(** The in-place updates [stats[field] += 1] of one bucket. *)
Module Bump.
Import UserStats.
Definition total (s : t) : t :=
  mk (total s + 1) (success s) (failed s) (lusha_calls s)
     (lusha_phone_found s) (apollo_calls s) (apollo_phone_found s)
     (phone_found s).
Definition success (s : t) : t :=
  mk (UserStats.total s) (UserStats.success s + 1) (failed s) (lusha_calls s)
     (lusha_phone_found s) (apollo_calls s) (apollo_phone_found s)
     (phone_found s).
Definition failed (s : t) : t :=
  mk (UserStats.total s) (UserStats.success s) (UserStats.failed s + 1)
     (lusha_calls s) (lusha_phone_found s) (apollo_calls s)
     (apollo_phone_found s) (phone_found s).
Definition lusha_calls (s : t) : t :=
  mk (UserStats.total s) (UserStats.success s) (UserStats.failed s)
     (UserStats.lusha_calls s + 1) (lusha_phone_found s) (apollo_calls s)
     (apollo_phone_found s) (phone_found s).
Definition lusha_phone_found (s : t) : t :=
  mk (UserStats.total s) (UserStats.success s) (UserStats.failed s)
     (UserStats.lusha_calls s) (UserStats.lusha_phone_found s + 1)
     (apollo_calls s) (apollo_phone_found s) (phone_found s).
Definition apollo_calls (s : t) : t :=
  mk (UserStats.total s) (UserStats.success s) (UserStats.failed s)
     (UserStats.lusha_calls s) (UserStats.lusha_phone_found s)
     (UserStats.apollo_calls s + 1) (apollo_phone_found s) (phone_found s).
Definition apollo_phone_found (s : t) : t :=
  mk (UserStats.total s) (UserStats.success s) (UserStats.failed s)
     (UserStats.lusha_calls s) (UserStats.lusha_phone_found s)
     (UserStats.apollo_calls s) (UserStats.apollo_phone_found s + 1)
     (phone_found s).
Definition phone_found (s : t) : t :=
  mk (UserStats.total s) (UserStats.success s) (UserStats.failed s)
     (UserStats.lusha_calls s) (UserStats.lusha_phone_found s)
     (UserStats.apollo_calls s) (UserStats.apollo_phone_found s)
     (UserStats.phone_found s + 1).
End Bump.

(** What one pass of the loop body does to the bucket [stats] of the
    record's user. *)
Definition count_into (stats : UserStats.t) (record : record) : UserStats.t :=
  let stats := Bump.total stats in
  let is_success := is_True (get record "lusha_api_success") in
  let phone_found := is_True (get record "phone_found") in
  let source := get record "enrichment_source" in
  let stats := if is_success then Bump.success stats else Bump.failed stats in
  let stats := if phone_found then Bump.phone_found stats else stats in
  if eq_str source "APOLLO" then
    let stats := Bump.apollo_calls stats in
    if phone_found then Bump.apollo_phone_found stats else stats
  else
    let stats := Bump.lusha_calls stats in
    if phone_found then Bump.lusha_phone_found stats else stats.

(** The key of the record's bucket: [record.get('user_name', 'Unknown')]. *)
Definition user_key (record : record) : pyval :=
  get_default record "user_name" (PStr "Unknown").

(** The body of [for record in records]: [user_stats[user_name]] fetches the
    bucket from the [defaultdict] (storing a fresh all-zero bucket on the
    first encounter); the bucket is updated in place, so the dictionary
    holds the updated bucket under the same key afterwards. *)
Definition count_record (user_stats : gmap pyval UserStats.t) (record : record)
    : gmap pyval UserStats.t :=
  let user_name := user_key record in
  let stats := default UserStats.zero (user_stats !! user_name) in
  <[user_name := count_into stats record]> user_stats.

Definition analyze_records (records : list record) : AnalysisResult :=
  let total_calls := Z.of_nat (length records) in
  let successful_calls :=
    sum_if (λ r, is_True (get r "lusha_api_success")) records in
  let failed_calls :=
    sum_if (λ r, is_False (get r "lusha_api_success")) records in
  let apollo_calls :=
    sum_if (λ r, eq_str (get r "enrichment_source") "APOLLO") records in
  let lusha_calls := total_calls - apollo_calls in
  let phone_found_total :=
    sum_if (λ r, is_True (get r "phone_found")) records in
  let phone_not_found_total :=
    sum_if (λ r, is_False (get r "phone_found")) records in
  let apollo_phone_found_total :=
    sum_if (λ r, is_True (get r "phone_found")
                 && eq_str (get r "enrichment_source") "APOLLO") records in
  let lusha_phone_found_total :=
    sum_if (λ r, is_True (get r "phone_found")
                 && negb (eq_str (get r "enrichment_source") "APOLLO")) records in
  let user_stats := fold_left count_record records ∅ in
  {| overall :=
       Overall.mk total_calls successful_calls failed_calls apollo_calls
                  lusha_calls phone_found_total phone_not_found_total
                  apollo_phone_found_total lusha_phone_found_total;
     user_stats := user_stats |}.

(** ** [sorted] on the items of a dictionary *)

(** [a < b] on field values.  Strings compare by code point, booleans as the
    integers 0 and 1; [None] supports no ordering and neither does a string
    against a boolean: those comparisons raise [TypeError], here [None]. *)
Definition py_lt (a b : pyval) : option bool :=
  match a, b with
  | PStr s, PStr t => Some (String.ltb s t)
  | PBool x, PBool y => Some (negb x && y)
  | _, _ => None
  end.

(** [x < y] on [(user_name, stats)] tuples: the first components decide
    when they differ; on equal names the buckets are compared, and two
    different dictionaries support no ordering. *)
Definition item_lt (x y : pyval * UserStats.t) : option bool :=
  if decide (x.1 = y.1) then
    if decide (x.2 = y.2) then Some false else None
  else py_lt x.1 y.1.

Section sorted.
Context {A : Type} (lt : A → A → option bool).

(** [sorted] is stable and asks only [<]; it is modelled by the stable
    insertion of each element in turn, the first failing comparison
    aborting the whole sort. *)
Fixpoint sorted_insert (x : A) (l : list A) : option (list A) :=
  match l with
  | [] => Some [x]
  | y :: l' =>
      b ← lt x y;
      if b : bool then Some (x :: y :: l')
      else l'' ← sorted_insert x l'; Some (y :: l'')
  end.

Definition sorted (l : list A) : option (list A) :=
  foldl (λ acc x, acc' ← acc; sorted_insert x acc') (Some []) l.
End sorted.

(** ** The world of a run *)

(** The module-level settings read from the environment; [None] is an unset
    variable.  [SMTP_USERNAME] is read from the same variable as
    [DEFAULT_FROM_EMAIL]. *)
Record Config : Type := mkConfig {
  MONGO_URI : option string;
  DB_NAME : option string;
  COLLECTION_NAME : option string;
  SMTP_SERVER : option string;
  SMTP_PORT : Z;
  SMTP_PASSWORD : option string;
  DEFAULT_FROM_EMAIL : option string;
  RECIPIENT_EMAIL : option string
}.

Definition SMTP_USERNAME (cfg : Config) : option string :=
  DEFAULT_FROM_EMAIL cfg.

(** Truth value of an optional string: [None] and [''] are false. *)
Definition truthy (o : option string) : bool :=
  match o with
  | Some s => negb (bool_decide (s = ""))
  | None => false
  end.

(** A cell handed to [csv.writer.writerow]: a field value or an integer. *)
Inductive cell : Type :=
  | Val : pyval → cell
  | Int : Z → cell.

Abbreviation row := (list cell).

Definition Str (s : string) : cell := Val (PStr s).

(** Exceptions the modelled calls raise. *)
Inductive exn : Type :=
  | TypeError
  | FileNotFoundError
  | MongoError
  | SMTPServerDisconnected
  | SMTPException.

(** A MIME part of a message. *)
Inductive part : Type :=
  | MIMEText (body subtype : string)
  | MIMEApplication (data : list row) (name : string).

Record message : Type := mkMessage {
  msg_subtype : string;
  msg_from : option string;
  msg_to : option string;
  msg_cc : option string;
  msg_bcc : option string;
  msg_subject : string;
  msg_parts : list part
}.

(** The steps of the SMTP conversation. *)
Inductive smtp_step : Type :=
  | Connect (host : string) (port : Z)
  | StartTls
  | Login (user password : option string)
  | SendMessage (msg : message).

Inductive smtp_stage : Type := AtConnect | AtStartTls | AtLogin | AtSend.

Global Instance smtp_stage_eq_dec : EqDecision smtp_stage.
Proof. solve_decision. Defined.

Definition stage_of (s : smtp_step) : smtp_stage :=
  match s with
  | Connect _ _ => AtConnect
  | StartTls => AtStartTls
  | Login _ _ => AtLogin
  | SendMessage _ => AtSend
  end.

(** What the program prints. *)
Inductive output : Type :=
  | Line (text : string)
  | ErrorConnecting (e : exn)
  | ErrorSending (e : exn).

(** Observable actions of a run, in order. *)
Inductive event : Type :=
  | Printed (o : output)
  | Smtp (s : smtp_step).

(** The collaborators of a run, which the program does not control: the
    settings, the document store, the clock and the mail server. *)
Record Env : Type := mkEnv {
  config : Config;
  (** the exception [MongoClient]/[server_info] raise, if any *)
  mongo_fault : option exn;
  (** the documents [collection.find(query)] returns for the 24-hour query *)
  window_records : list record;
  (** [datetime.now()] rendered for the file name and for the subject *)
  file_stamp : string;
  subject_stamp : string;
  (** the step of the SMTP conversation that fails, if any *)
  smtp_fault : option smtp_stage
}.

(** What a run changes: the files of the working directory (the rows
    written to each) and the actions performed so far. *)
Record State : Type := mkState {
  files : gmap string (list row);
  trace : list event
}.

(** ** A state and exception monad *)

Inductive result (A : Type) : Type :=
  | Ok (a : A)
  | Raise (e : exn).
Arguments Ok {A} a.
Arguments Raise {A} e.

Definition M (A : Type) : Type := State → result A * State.

Definition ret {A} (a : A) : M A := λ st, (Ok a, st).

Definition bind {A B} (c : M A) (k : A → M B) : M B :=
  λ st, match c st with
        | (Ok a, st') => k a st'
        | (Raise e, st') => (Raise e, st')
        end.

Definition raise {A} (e : exn) : M A := λ st, (Raise e, st).

(** [try: c except Exception as e: h(e)] *)
Definition try_except {A} (c : M A) (h : exn → M A) : M A :=
  λ st, match c st with
        | (Ok a, st') => (Ok a, st')
        | (Raise e, st') => h e st'
        end.

Declare Scope run_scope.
Delimit Scope run_scope with run.
Notation "x <- c ;; k" := (bind c (λ x, k))
  (at level 100, c at next level, right associativity) : run_scope.
Notation "c ;; k" := (bind c (λ _, k))
  (at level 100, right associativity) : run_scope.
Local Open Scope run_scope.

Definition emit (e : event) : M unit :=
  λ st, (Ok (), {| files := files st; trace := trace st ++ [e] |}).

Definition print (o : output) : M unit := emit (Printed o).

(** [open(name, 'w')]: the file is created, or truncated. *)
Definition open_w (name : string) : M unit :=
  λ st, (Ok (), {| files := <[name := []]> (files st); trace := trace st |}).

(** [writer.writerow(r)] on the writer of file [name]. *)
Definition writerow (name : string) (r : row) : M unit :=
  λ st, (Ok (), {| files := <[name := default [] (files st !! name) ++ [r]]> (files st);
                   trace := trace st |}).

(** [open(name, 'rb').read()] *)
Definition read_file (name : string) : M (list row) :=
  λ st, match files st !! name with
        | Some rows => (Ok rows, st)
        | None => (Raise FileNotFoundError, st)
        end.

(** [for x in l: body(x)] *)
Fixpoint for_each {A} (l : list A) (body : A → M unit) : M unit :=
  match l with
  | [] => ret ()
  | x :: l' => body x ;; for_each l' body
  end.

(** ** String helpers *)

(** [str(n)] for an integer. *)
Definition str_int (n : Z) : string := NilZero.string_of_int (Z.to_int n).

Definition nl : string := String "010" "".

(** [s.replace(old, new)] for a non-empty [old]: every occurrence, left to
    right, without overlaps.  [skip] counts the characters of a matched
    occurrence still to be dropped. *)
Fixpoint replace_go (old new : string) (skip : nat) (s : string) : string :=
  match s with
  | "" => ""
  | String c s' =>
      match skip with
      | S n => replace_go old new n s'
      | O =>
          if String.prefix old s
          then new +:+ replace_go old new (String.length old - 1)%nat s'
          else String c (replace_go old new 0%nat s')
      end
  end.

Definition replace (s old new : string) : string := replace_go old new 0%nat s.

(** [a or b] on optional strings. *)
Definition py_or (a b : option string) : option string :=
  if truthy a then a else b.

(** ** The program *)

Section program.
Variable env : Env.

Let cfg : Config := config env.

(** *** [EmailService] *)

Record EmailService : Type := mkEmailService {
  smtp_server : option string;
  smtp_port : Z;
  smtp_username : option string;
  smtp_password : option string;
  default_from_email : option string
}.

Definition EmailService_init : EmailService :=
  {| smtp_server := SMTP_SERVER cfg;
     smtp_port := SMTP_PORT cfg;
     smtp_username := SMTP_USERNAME cfg;
     smtp_password := SMTP_PASSWORD cfg;
     default_from_email := DEFAULT_FROM_EMAIL cfg |}.

(** One step of the SMTP conversation: it is attempted, and raises when
    the mail server fails at that stage. *)
Definition smtp_do (s : smtp_step) : M unit :=
  emit (Smtp s) ;;
  if decide (smtp_fault env = Some (stage_of s)) then raise SMTPException
  else ret ().

(** [with smtplib.SMTP(host, port) as server: ...]: the constructor
    connects only when it is given a host, and every later command of an
    unconnected client raises [SMTPServerDisconnected]. *)
Definition smtp_session (self : EmailService) (msg : message) : M unit :=
  match smtp_server self with
  | Some host =>
      if truthy (Some host) then
        smtp_do (Connect host (smtp_port self)) ;;
        smtp_do StartTls ;;
        smtp_do (Login (smtp_username self) (smtp_password self)) ;;
        smtp_do (SendMessage msg)
      else raise SMTPServerDisconnected
  | None => raise SMTPServerDisconnected
  end.

Definition send_email (self : EmailService) (to_email : option string)
    (subject body : string) (from_email cc_email bcc_email : option string)
    (attachment : option (list row)) (filename : option string)
    (is_html : bool) : M bool :=
  let msg_text :=
    if is_html then
      [ MIMEText (replace (replace (replace body "<br>" nl) "<p>" "") "</p>" nl)
                 "plain";
        MIMEText body "html" ]
    else [ MIMEText body "plain" ] in
  let msg_attachment :=
    match attachment, filename with
    | Some data, Some name =>
        if negb (bool_decide (data = [])) && truthy (Some name)
        then [ MIMEApplication data name ] else []
    | _, _ => []
    end in
  let msg :=
    {| msg_subtype := if is_html then "alternative" else "mixed";
       msg_from := py_or from_email (default_from_email self);
       msg_to := to_email;
       msg_cc := if truthy cc_email then cc_email else None;
       msg_bcc := if truthy bcc_email then bcc_email else None;
       msg_subject := subject;
       msg_parts := msg_text ++ msg_attachment |} in
  try_except
    (smtp_session self msg ;; ret true)
    (λ e, print (ErrorSending e) ;; ret false).

(** *** [connect_to_mongodb] and [fetch_last_24_hours_records] *)

(** The handle of the collection. *)
Inductive collection : Type := Collection.

Definition connect_to_mongodb : M (option collection) :=
  try_except
    (if negb (truthy (MONGO_URI cfg)) || negb (truthy (DB_NAME cfg))
        || negb (truthy (COLLECTION_NAME cfg))
     then
       print (Line "Error: Missing configuration in .env file") ;;
       ret None
     else
       match mongo_fault env with
       | Some e => raise e
       | None => ret (Some Collection)
       end)
    (λ e, print (ErrorConnecting e) ;; ret None).

Definition fetch_last_24_hours_records (c : collection) : M (list record) :=
  ret (window_records env).

(** *** [generate_csv] *)

Definition user_row (item : pyval * UserStats.t) : row :=
  let '(user_name, stats) := item in
  [ Val user_name;
    Int (UserStats.total stats);
    Int (UserStats.success stats);
    Int (UserStats.failed stats);
    Int (UserStats.lusha_calls stats);
    Int (UserStats.lusha_phone_found stats);
    Int (UserStats.apollo_calls stats);
    Int (UserStats.apollo_phone_found stats);
    Int (UserStats.phone_found stats) ].

Definition generate_csv (analysis : AnalysisResult) : M string :=
  let timestamp := file_stamp env in
  let filename := "api_performance_report_" +:+ timestamp +:+ ".csv" in
  open_w filename ;;
  writerow filename [Str "OVERALL SUMMARY"] ;;
  writerow filename [Str "Metric"; Str "Value"] ;;
  let overall := overall analysis in
  writerow filename [Str "Total API Calls"; Int (Overall.total_calls overall)] ;;
  writerow filename [Str "Successful Calls"; Int (Overall.successful_calls overall)] ;;
  writerow filename [Str "Failed Calls"; Int (Overall.failed_calls overall)] ;;
  writerow filename [Str "Apollo Calls"; Int (Overall.apollo_calls overall)] ;;
  writerow filename [Str "Lusha Calls"; Int (Overall.lusha_calls overall)] ;;
  writerow filename [Str "Phone Found Total"; Int (Overall.phone_found_total overall)] ;;
  writerow filename [Str "Apollo Phone Found"; Int (Overall.apollo_phone_found_total overall)] ;;
  writerow filename [Str "Lusha Phone Found"; Int (Overall.lusha_phone_found_total overall)] ;;
  writerow filename [Str "Phone Not Found"; Int (Overall.phone_not_found_total overall)] ;;
  writerow filename [] ;;
  writerow filename [Str "USER-WISE PERFORMANCE"] ;;
  writerow filename [Str "User"; Str "Total"; Str "Success"; Str "Failed";
                     Str "Lusha"; Str "Lusha Ph"; Str "Apollo"; Str "Apollo Ph";
                     Str "Total Ph"] ;;
  let user_stats := user_stats analysis in
  match sorted item_lt (map_to_list user_stats) with
  | None => raise TypeError
  | Some items =>
      for_each items (λ item, writerow filename (user_row item)) ;;
      ret filename
  end.

(** *** [send_email_with_csv] *)

Definition email_body (overall : Overall.t) : string :=
  "Hello," +:+ nl +:+ nl +:+
  "Please find attached the 24-hour API Performance Report." +:+ nl +:+ nl +:+
  "SUMMARY:" +:+ nl +:+
  "- Total API Calls: " +:+ str_int (Overall.total_calls overall) +:+ nl +:+
  "- Successful: " +:+ str_int (Overall.successful_calls overall) +:+
  " | Failed: " +:+ str_int (Overall.failed_calls overall) +:+ nl +:+
  "- Apollo Calls: " +:+ str_int (Overall.apollo_calls overall) +:+
  " | Lusha Calls: " +:+ str_int (Overall.lusha_calls overall) +:+ nl +:+
  "- Phone Numbers Found: " +:+ str_int (Overall.phone_found_total overall) +:+
  " (Apollo: " +:+ str_int (Overall.apollo_phone_found_total overall) +:+
  ", Lusha: " +:+ str_int (Overall.lusha_phone_found_total overall) +:+ ")" +:+
  nl +:+ nl +:+
  "Detailed report is attached as CSV file." +:+ nl +:+ nl +:+
  "Best regards," +:+ nl +:+
  "API Performance Monitor" +:+ nl.

Definition send_email_with_csv (csv_filename : string)
    (analysis : AnalysisResult) : M bool :=
  try_except
    (if negb (truthy (SMTP_PASSWORD cfg) && truthy (DEFAULT_FROM_EMAIL cfg)
              && truthy (RECIPIENT_EMAIL cfg))
     then
       print (Line "Error: Missing email configuration in .env file") ;;
       print (Line "Required: SMTP_PASSWORD, DEFAULT_FROM_EMAIL, RECIPIENT_EMAIL") ;;
       ret false
     else
       csv_data <- read_file csv_filename ;;
       let overall := overall analysis in
       let body := email_body overall in
       let email_service := EmailService_init in
       success <- send_email email_service (RECIPIENT_EMAIL cfg)
                    ("API Performance Report - " +:+ subject_stamp env)
                    body None None None (Some csv_data) (Some csv_filename)
                    false ;;
       ret success)
    (λ e, print (ErrorSending e) ;; ret false).

(** *** [main] *)

Definition main : M unit :=
  collection <- connect_to_mongodb ;;
  match collection with
  | None => ret ()
  | Some collection =>
      records <- fetch_last_24_hours_records collection ;;
      if bool_decide (length records = 0%nat) then ret ()
      else
        let analysis := analyze_records records in
        csv_filename <- generate_csv analysis ;;
        _ <- send_email_with_csv csv_filename analysis ;;
        ret ()
  end.
End program.


(** * Vocabulary of the properties *)

(** The sum of a counter over all buckets of [user_stats]. *)
Definition sum_users (f : UserStats.t → Z) (m : gmap pyval UserStats.t) : Z :=
  map_fold (λ _ s acc, f s + acc) 0 m.

(** The name [generate_csv] gives the report. *)
Definition report_name (env : Env) : string :=
  "api_performance_report_" +:+ file_stamp env +:+ ".csv".

(** The rows [generate_csv] writes before the user rows: the overall
    summary, the blank row and the two header rows of the user table. *)
Definition report_head (o : Overall.t) : list row :=
  [ [Str "OVERALL SUMMARY"];
    [Str "Metric"; Str "Value"];
    [Str "Total API Calls"; Int (Overall.total_calls o)];
    [Str "Successful Calls"; Int (Overall.successful_calls o)];
    [Str "Failed Calls"; Int (Overall.failed_calls o)];
    [Str "Apollo Calls"; Int (Overall.apollo_calls o)];
    [Str "Lusha Calls"; Int (Overall.lusha_calls o)];
    [Str "Phone Found Total"; Int (Overall.phone_found_total o)];
    [Str "Apollo Phone Found"; Int (Overall.apollo_phone_found_total o)];
    [Str "Lusha Phone Found"; Int (Overall.lusha_phone_found_total o)];
    [Str "Phone Not Found"; Int (Overall.phone_not_found_total o)];
    [];
    [Str "USER-WISE PERFORMANCE"];
    [Str "User"; Str "Total"; Str "Success"; Str "Failed"; Str "Lusha";
     Str "Lusha Ph"; Str "Apollo"; Str "Apollo Ph"; Str "Total Ph"] ].

(** The user-wise section of a report: what follows its fourteen leading
    rows. *)
Definition user_section (rows : list row) : list row := drop 14 rows.

(** The content of the report file after [generate_csv] ran. *)
Definition report_rows (env : Env) (analysis : AnalysisResult) (st : State)
    : list row :=
  default [] (files (generate_csv env analysis st).2 !! report_name env).

Definition is_str (v : pyval) : Prop :=
  match v with PStr _ => True | _ => False end.

Global Instance is_str_dec (v : pyval) : Decision (is_str v).
Proof. destruct v; simpl; apply _. Defined.

(** Strictly ascending lexicographic order of two user names. *)
Definition user_name_lt (a b : pyval) : Prop :=
  ∃ s t, a = PStr s ∧ b = PStr t ∧ String.ltb s t = true.

(** The user-wise section holds exactly one row per user, each made from
    that user's bucket, in strictly ascending order of the user names. *)
Definition one_sorted_row_per_user (env : Env) (analysis : AnalysisResult)
    (st : State) : Prop :=
  ∃ items,
    user_section (report_rows env analysis st) = user_row <$> items
    ∧ items ≡ₚ map_to_list (user_stats analysis)
    ∧ StronglySorted (λ x y, user_name_lt x.1 y.1) items.

(** The steps of the SMTP conversation among the actions of a run. *)
Definition smtp_steps (t : list event) : list smtp_step :=
  omap (λ e, match e with Smtp s => Some s | Printed _ => None end) t.

(** What [send_email_with_csv] prints on missing settings. *)
Definition missing_email_configuration : list event :=
  [ Printed (Line "Error: Missing email configuration in .env file");
    Printed (Line "Required: SMTP_PASSWORD, DEFAULT_FROM_EMAIL, RECIPIENT_EMAIL") ].

(** Settings, collaborators and an initial state for examples. *)
Definition example_config : Config :=
  {| MONGO_URI := Some "mongodb://db.example.org";
     DB_NAME := Some "crm";
     COLLECTION_NAME := Some "enrichment_calls";
     SMTP_SERVER := Some "smtp.example.org";
     SMTP_PORT := 587;
     SMTP_PASSWORD := Some "secret";
     DEFAULT_FROM_EMAIL := Some "reports@example.org";
     RECIPIENT_EMAIL := Some "ops@example.org" |}.

(** The same settings without [RECIPIENT_EMAIL]. *)
Definition config_without_recipient : Config :=
  {| MONGO_URI := Some "mongodb://db.example.org";
     DB_NAME := Some "crm";
     COLLECTION_NAME := Some "enrichment_calls";
     SMTP_SERVER := Some "smtp.example.org";
     SMTP_PORT := 587;
     SMTP_PASSWORD := Some "secret";
     DEFAULT_FROM_EMAIL := Some "reports@example.org";
     RECIPIENT_EMAIL := None |}.

Definition example_env (cfg : Config) (records : list record) : Env :=
  {| config := cfg;
     mongo_fault := None;
     window_records := records;
     file_stamp := "20240131_090000";
     subject_stamp := "2024-01-31 09:00";
     smtp_fault := None |}.

Definition empty_state : State := {| files := ∅; trace := [] |}.

(** A document whose [user_name] is present and null. *)
Definition null_named : record := {[ "user_name" := PNone ]}.

(** Two users, one of them with a null [user_name]. *)
Definition null_and_alice : list record :=
  [ null_named; {[ "user_name" := PStr "alice" ]} ].

(** The documents of Scenario B. *)
Definition scenario_b : list record :=
  [ {[ "user_name" := PStr "alice"; "lusha_api_success" := PBool true;
       "phone_found" := PBool true; "enrichment_source" := PStr "LUSHA" ]};
    {[ "user_name" := PStr "bob"; "lusha_api_success" := PBool false;
       "phone_found" := PBool false; "enrichment_source" := PStr "APOLLO" ]};
    ∅ ].

(** Field-wise sum of two overall statistics. *)
Definition overall_add (o1 o2 : Overall.t) : Overall.t :=
  Overall.mk
    (Overall.total_calls o1 + Overall.total_calls o2)
    (Overall.successful_calls o1 + Overall.successful_calls o2)
    (Overall.failed_calls o1 + Overall.failed_calls o2)
    (Overall.apollo_calls o1 + Overall.apollo_calls o2)
    (Overall.lusha_calls o1 + Overall.lusha_calls o2)
    (Overall.phone_found_total o1 + Overall.phone_found_total o2)
    (Overall.phone_not_found_total o1 + Overall.phone_not_found_total o2)
    (Overall.apollo_phone_found_total o1 + Overall.apollo_phone_found_total o2)
    (Overall.lusha_phone_found_total o1 + Overall.lusha_phone_found_total o2).

(** Field-wise sum of two buckets. *)
Definition bucket_add (s1 s2 : UserStats.t) : UserStats.t :=
  UserStats.mk
    (UserStats.total s1 + UserStats.total s2)
    (UserStats.success s1 + UserStats.success s2)
    (UserStats.failed s1 + UserStats.failed s2)
    (UserStats.lusha_calls s1 + UserStats.lusha_calls s2)
    (UserStats.lusha_phone_found s1 + UserStats.lusha_phone_found s2)
    (UserStats.apollo_calls s1 + UserStats.apollo_calls s2)
    (UserStats.apollo_phone_found s1 + UserStats.apollo_phone_found s2)
    (UserStats.phone_found s1 + UserStats.phone_found s2).

(** The bucket of a user in [user_stats], all-zero for a user without one. *)
Definition bucket_of (m : gmap pyval UserStats.t) (k : pyval) : UserStats.t :=
  default UserStats.zero (m !! k).

(** Two documents that agree on the four fields [analyze_records] reads. *)
Definition same_fields (r r' : record) : Prop :=
  r !! "user_name" = r' !! "user_name"
  ∧ r !! "lusha_api_success" = r' !! "lusha_api_success"
  ∧ r !! "phone_found" = r' !! "phone_found"
  ∧ r !! "enrichment_source" = r' !! "enrichment_source".

Definition is_bool (v : pyval) : Prop :=
  match v with PBool _ => True | _ => False end.

Global Instance is_bool_dec (v : pyval) : Decision (is_bool v).
Proof. destruct v; simpl; apply _. Defined.

(** User names that [<] can order among themselves: at most one name, or
    only strings, or only booleans. *)
Definition names_comparable (m : gmap pyval UserStats.t) : Prop :=
  (size m ≤ 1)%nat
  ∨ map_Forall (λ k _, is_str k) m
  ∨ map_Forall (λ k _, is_bool k) m.

Global Instance names_comparable_dec (m : gmap pyval UserStats.t) :
  Decision (names_comparable m).
Proof. unfold names_comparable. apply _. Defined.

(** The kinds of user name: [None], a boolean, a string. *)
Inductive name_kind : Type := KNone | KBool | KStr.

Global Instance name_kind_eq_dec : EqDecision name_kind.
Proof. solve_decision. Defined.

Definition kind_of (v : pyval) : name_kind :=
  match v with
  | PNone => KNone
  | PBool _ => KBool
  | PStr _ => KStr
  end.

(** The messages handed to the mail server among the actions of a run. *)
Definition send_attempts (t : list event) : list message :=
  omap (λ e, match e with Smtp (SendMessage m) => Some m | _ => None end) t.

(** The diagnostics printed among the actions of a run. *)
Definition printed (t : list event) : list output :=
  omap (λ e, match e with Printed o => Some o | Smtp _ => None end) t.

(** The message [send_email_with_csv] composes for a report. *)
Definition report_message (env : Env) (analysis : AnalysisResult)
    (csv_filename : string) (csv_data : list row) : message :=
  {| msg_subtype := "mixed";
     msg_from := DEFAULT_FROM_EMAIL (config env);
     msg_to := RECIPIENT_EMAIL (config env);
     msg_cc := None;
     msg_bcc := None;
     msg_subject := "API Performance Report - " +:+ subject_stamp env;
     msg_parts := [ MIMEText (email_body (overall analysis)) "plain";
                    MIMEApplication csv_data csv_filename ] |}.

(** The complete SMTP conversation that delivers a message. *)
Definition delivery (env : Env) (host : string) (msg : message)
    : list smtp_step :=
  [ Connect host (SMTP_PORT (config env));
    StartTls;
    Login (SMTP_USERNAME (config env)) (SMTP_PASSWORD (config env));
    SendMessage msg ].

(** The three settings [connect_to_mongodb] requires, and the three
    [send_email_with_csv] requires. *)
Definition mongo_configured (cfg : Config) : bool :=
  truthy (MONGO_URI cfg) && truthy (DB_NAME cfg) && truthy (COLLECTION_NAME cfg).

Definition email_configured (cfg : Config) : bool :=
  truthy (SMTP_PASSWORD cfg) && truthy (DEFAULT_FROM_EMAIL cfg)
  && truthy (RECIPIENT_EMAIL cfg).

(** A state after some more actions. *)
Definition with_events (st : State) (evs : list event) : State :=
  {| files := files st; trace := trace st ++ evs |}.

(** What [main] needs to reach the collection. *)
Definition mongo_reached (env : Env) : bool :=
  mongo_configured (config env) && bool_decide (mongo_fault env = None).

(** The collaborators of the examples, for the records of Scenario B. *)
Definition scenario_env : Env := example_env example_config scenario_b.

(** The same, with a mail server that rejects the login. *)
Definition login_refused_env : Env :=
  {| config := example_config;
     mongo_fault := None;
     window_records := scenario_b;
     file_stamp := "20240131_090000";
     subject_stamp := "2024-01-31 09:00";
     smtp_fault := Some AtLogin |}.

(** The same, with a document store that cannot be reached. *)
Definition store_down_env : Env :=
  {| config := example_config;
     mongo_fault := Some MongoError;
     window_records := scenario_b;
     file_stamp := "20240131_090000";
     subject_stamp := "2024-01-31 09:00";
     smtp_fault := None |}.

(** The integer in a cell, and the sum of a column of integer cells. *)
Definition cell_int (c : cell) : Z :=
  match c with Int z => z | Val _ => 0 end.

Definition column_sum (i : nat) (rows : list row) : Z :=
  foldr (λ r acc, cell_int (default (Int 0) (r !! i)) + acc) 0 rows.

(** The value in the [Value] column of row [i] of the overall summary. *)
Definition summary_value (i : nat) (rows : list row) : Z :=
  cell_int (default (Int 0) (default [] (rows !! i) !! 1%nat)).

(** The character [c] occurs in [s]. *)
Fixpoint occurs (c : ascii) (s : string) : bool :=
  match s with
  | "" => false
  | String a s' => bool_decide (a = c) || occurs c s'
  end.

(** * Properties *)

(** ** Counting with [sum] *)

Lemma sum_if_fold_acc (cond : record → bool) (records : list record) (a : Z) :
  fold_left (λ acc r, if cond r then acc + 1 else acc) records a
  = a + sum_if cond records.
Proof.
  unfold sum_if. revert a.
  induction records as [| r records IH]; intros a; simpl; [lia |].
  rewrite (IH (if cond r then a + 1 else a)), (IH (if cond r then 0 + 1 else 0)).
  destruct (cond r); lia.
Qed.

Lemma sum_if_nil (cond : record → bool) : sum_if cond [] = 0.
Proof. reflexivity. Qed.

Lemma sum_if_cons (cond : record → bool) (r : record) (records : list record) :
  sum_if cond (r :: records) = (if cond r then 1 else 0) + sum_if cond records.
Proof.
  unfold sum_if at 1. simpl. rewrite sum_if_fold_acc. destruct (cond r); lia.
Qed.

(** [sum_if] counts the records that satisfy the property the condition
    decides. *)
Lemma sum_if_count (cond : record → bool) (P : record → Prop)
    `{!∀ r, Decision (P r)} (records : list record) :
  (∀ r, cond r = true ↔ P r) →
  sum_if cond records = Z.of_nat (length (filter P records)).
Proof.
  intros Hcond. induction records as [| r records IH]; [reflexivity |].
  rewrite sum_if_cons, IH, filter_cons.
  destruct (cond r) eqn:Hr.
  - rewrite decide_True by (by apply Hcond). simpl length. lia.
  - rewrite decide_False; [lia |]. intros HP. apply Hcond in HP. congruence.
Qed.

Lemma length_filter_split {A} (P Q : A → Prop) `{!∀ x, Decision (P x)}
    `{!∀ x, Decision (Q x)} (l : list A) :
  (∀ x, P x → Q x → False) →
  (length (filter P l) + length (filter Q l) ≤ length l)%nat ∧
  ((length (filter P l) + length (filter Q l))%nat = length l
   ↔ Forall (λ x, P x ∨ Q x) l).
Proof.
  intros Hdisj. induction l as [| x l [IHle IHeq]].
  - split; [simpl; lia |]. split; [constructor | reflexivity].
  - rewrite !filter_cons, Forall_cons.
    pose proof (Hdisj x) as Hx.
    destruct (decide (P x)) as [HP | HP], (decide (Q x)) as [HQ | HQ];
      simpl length; try tauto.
    + split; [lia |]. rewrite <- IHeq. split; [intros; split; [tauto | lia] |].
      intros [_ ?]; lia.
    + split; [lia |]. rewrite <- IHeq. split; [intros; split; [tauto | lia] |].
      intros [_ ?]; lia.
    + split; [lia |]. split; [lia | tauto].
Qed.

(** What the tests [is True], [is False] and [== 'APOLLO'] on [r.get(key)]
    say about the field itself. *)
Lemma is_True_get (r : record) (key : string) :
  is_True (get r key) = true ↔ r !! key = Some (PBool true).
Proof.
  unfold get. destruct (r !! key) as [[| [|] | s] |]; simpl; split; congruence.
Qed.

Lemma is_False_get (r : record) (key : string) :
  is_False (get r key) = true ↔ r !! key = Some (PBool false).
Proof.
  unfold get. destruct (r !! key) as [[| [|] | s] |]; simpl; split; congruence.
Qed.

Lemma eq_str_get (r : record) (key s : string) :
  eq_str (get r key) s = true ↔ r !! key = Some (PStr s).
Proof.
  unfold get. destruct (r !! key) as [[| b | t] |]; simpl;
    try (split; congruence).
  rewrite bool_decide_eq_true. split; congruence.
Qed.

(** ** The bucket of one user *)

(** After the loop, the bucket under a key is the result of counting, in
    order, exactly the records with that key into the bucket the key had
    before (a fresh one if it had none); a key no record carries is left
    as it was. *)
Lemma fold_count_record_lookup (records : list record)
    (m : gmap pyval UserStats.t) (k : pyval) :
  fold_left count_record records m !! k
  = match filter (λ r, user_key r = k) records with
    | [] => m !! k
    | mine => Some (fold_left count_into mine (default UserStats.zero (m !! k)))
    end.
Proof.
  revert m. induction records as [| r records IH]; intros m; [reflexivity |].
  simpl fold_left. rewrite IH, filter_cons. unfold count_record.
  destruct (decide (user_key r = k)) as [-> | Hne].
  - rewrite lookup_insert_eq. simpl.
    destruct (filter _ records); reflexivity.
  - rewrite lookup_insert_ne by done. reflexivity.
Qed.

Lemma analyze_records_bucket (records : list record) (k : pyval) :
  user_stats (analyze_records records) !! k
  = match filter (λ r, user_key r = k) records with
    | [] => None
    | mine => Some (fold_left count_into mine UserStats.zero)
    end.
Proof.
  unfold analyze_records; simpl. rewrite fold_count_record_lookup.
  rewrite lookup_empty. reflexivity.
Qed.

(** A property of buckets that holds of the fresh bucket and that counting
    a record preserves holds of every bucket of the result. *)
Lemma analyze_records_buckets_ind (P : UserStats.t → Prop)
    (records : list record) :
  P UserStats.zero →
  (∀ s r, P s → P (count_into s r)) →
  map_Forall (λ _ s, P s) (user_stats (analyze_records records)).
Proof.
  intros Hzero Hstep.
  assert (∀ l z, P z → P (fold_left count_into l z)) as Hfold.
  { induction l as [| x l IH]; intros z Hz; simpl; auto. }
  intros k s. rewrite analyze_records_bucket.
  destruct (filter _ records) as [| r mine]; [discriminate |].
  intros [= <-]. apply (Hfold (r :: mine)), Hzero.
Qed.

(** The eight counters of a bucket after one more record. *)
Lemma count_into_fields (s : UserStats.t) (r : record) :
  let success := is_True (get r "lusha_api_success") in
  let phone := is_True (get r "phone_found") in
  let apollo := eq_str (get r "enrichment_source") "APOLLO" in
  count_into s r =
  UserStats.mk
    (UserStats.total s + 1)
    (UserStats.success s + if success then 1 else 0)
    (UserStats.failed s + if success then 0 else 1)
    (UserStats.lusha_calls s + if apollo then 0 else 1)
    (UserStats.lusha_phone_found s + if phone && negb apollo then 1 else 0)
    (UserStats.apollo_calls s + if apollo then 1 else 0)
    (UserStats.apollo_phone_found s + if phone && apollo then 1 else 0)
    (UserStats.phone_found s + if phone then 1 else 0).
Proof.
  intros success phone apollo. unfold count_into.
  fold success phone apollo. destruct s as [t su fa lc lp ac ap ph].
  destruct success, phone, apollo; simpl; rewrite ?Z.add_0_r; reflexivity.
Qed.

(** C3: for every record list and every user bucket of the result,
    success + failed = total and lusha_calls + apollo_calls = total. *)
Theorem user_bucket_invariant (records : list record) :
  map_Forall
    (λ _ s, UserStats.success s + UserStats.failed s = UserStats.total s
            ∧ UserStats.lusha_calls s + UserStats.apollo_calls s
              = UserStats.total s)
    (user_stats (analyze_records records)).
Proof.
  apply analyze_records_buckets_ind; [split; reflexivity |].
  intros s r [Hsf Hla]. rewrite count_into_fields. simpl.
  destruct (is_True _), (eq_str _ _); lia.
Qed.

(** ** Overall statistics *)

(** C4: a record counts as successful iff its [lusha_api_success] is
    exactly [True] and as failed iff it is exactly [False]; hence
    successful_calls + failed_calls <= total_calls, with equality iff every
    record has the field explicitly set to [True] or [False]. *)
Theorem overall_success_failed (records : list record) :
  let o := overall (analyze_records records) in
  let succeeded := λ r : record, r !! "lusha_api_success" = Some (PBool true) in
  let failed := λ r : record, r !! "lusha_api_success" = Some (PBool false) in
  Overall.successful_calls o = Z.of_nat (length (filter succeeded records))
  ∧ Overall.failed_calls o = Z.of_nat (length (filter failed records))
  ∧ Overall.successful_calls o + Overall.failed_calls o ≤ Overall.total_calls o
  ∧ (Overall.successful_calls o + Overall.failed_calls o = Overall.total_calls o
     ↔ Forall (λ r, succeeded r ∨ failed r) records).
Proof.
  intros o succeeded failed. subst o. unfold analyze_records. simpl.
  rewrite (sum_if_count _ succeeded) by (intros r; apply is_True_get).
  rewrite (sum_if_count _ failed) by (intros r; apply is_False_get).
  destruct (length_filter_split succeeded failed records) as [Hle Heq].
  { unfold succeeded, failed. intros r H1 H2. congruence. }
  repeat split; try lia.
  - intros H. apply Heq. lia.
  - intros H. apply Heq in H. lia.
Qed.

(** C5: apollo_calls + lusha_calls = total_calls; a record counts toward
    Apollo iff its [enrichment_source] equals ["APOLLO"], and toward Lusha
    otherwise, also when the field is absent. *)
Theorem overall_provider_split (records : list record) :
  let o := overall (analyze_records records) in
  let apollo := λ r : record, r !! "enrichment_source" = Some (PStr "APOLLO") in
  Overall.apollo_calls o + Overall.lusha_calls o = Overall.total_calls o
  ∧ Overall.apollo_calls o = Z.of_nat (length (filter apollo records))
  ∧ Overall.lusha_calls o
    = Z.of_nat (length (filter (λ r, ¬ apollo r) records)).
Proof.
  intros o apollo. subst o. unfold analyze_records. simpl.
  rewrite (sum_if_count _ apollo) by (intros r; apply eq_str_get).
  destruct (length_filter_split apollo (λ r, ¬ apollo r) records) as [_ Heq].
  { tauto. }
  assert ((length (filter apollo records)
           + length (filter (λ r, ¬ apollo r) records))%nat = length records)
    as Hsplit.
  { apply Heq, Forall_forall. intros r _.
    destruct (decide (apollo r)); tauto. }
  repeat split; lia.
Qed.

(** C6: Scenario B.  The three records give total_calls = 3,
    successful_calls = 1, failed_calls = 1, apollo_calls = 1,
    lusha_calls = 2, phone_found_total = 1, phone_not_found_total = 1, and
    the users are exactly alice, bob and Unknown, each with total 1. *)
Theorem scenario_b_result :
  let a := analyze_records scenario_b in
  Overall.total_calls (overall a) = 3
  ∧ Overall.successful_calls (overall a) = 1
  ∧ Overall.failed_calls (overall a) = 1
  ∧ Overall.apollo_calls (overall a) = 1
  ∧ Overall.lusha_calls (overall a) = 2
  ∧ Overall.phone_found_total (overall a) = 1
  ∧ Overall.phone_not_found_total (overall a) = 1
  ∧ dom (user_stats a) = ({[ PStr "alice"; PStr "bob"; PStr "Unknown" ]} : gset pyval)
  ∧ map_Forall (λ _ s, UserStats.total s = 1) (user_stats a).
Proof.
  intros a.
  do 7 (split; [vm_compute; reflexivity |]).
  split.
  - vm_compute. reflexivity.
  - apply map_Forall_to_list. vm_compute. repeat constructor.
Qed.

(** ** The key of a bucket *)

Lemma user_key_spec (r : record) (k : pyval) :
  user_key r = k
  ↔ r !! "user_name" = Some k ∨ (r !! "user_name" = None ∧ k = PStr "Unknown").
Proof.
  unfold user_key, get_default.
  destruct (r !! "user_name") as [v |]; simpl.
  - split; [intros ->; auto | intros [[= ->] | [? _]]; congruence].
  - split; [intros <-; auto | intros [? | [_ ->]]; congruence].
Qed.

Lemma fold_count_into_total (l : list record) (z : UserStats.t) :
  UserStats.total (fold_left count_into l z)
  = UserStats.total z + Z.of_nat (length l).
Proof.
  revert z. induction l as [| r l IH]; intros z; simpl fold_left.
  - simpl. lia.
  - rewrite IH, count_into_fields. simpl. lia.
Qed.

(** The bucket of a key exists iff some record carries the key, and its
    [total] is the number of those records. *)
Lemma analyze_records_bucket_total (records : list record) (k : pyval)
    (s : UserStats.t) :
  user_stats (analyze_records records) !! k = Some s →
  UserStats.total s
  = Z.of_nat (length (filter (λ r, user_key r = k) records)).
Proof.
  rewrite analyze_records_bucket.
  destruct (filter _ records) as [| r mine] eqn:Hf; [discriminate |].
  intros Hs.
  assert (s = fold_left count_into (r :: mine) UserStats.zero) as ->
    by congruence.
  rewrite fold_count_into_total. reflexivity.
Qed.

Lemma analyze_records_bucket_is_Some (records : list record) (k : pyval) :
  is_Some (user_stats (analyze_records records) !! k)
  ↔ ∃ r, r ∈ records ∧ user_key r = k.
Proof.
  rewrite analyze_records_bucket. split.
  - destruct (filter _ records) as [| r mine] eqn:Hf.
    + intros [? ?]; discriminate.
    + intros _. exists r.
      assert (r ∈ filter (λ r, user_key r = k) records) as Hr
        by (rewrite Hf; left).
      apply list_elem_of_filter in Hr. tauto.
  - intros (r & Hin & Hk).
    assert (r ∈ filter (λ r, user_key r = k) records) as Hr.
    { apply list_elem_of_filter. done. }
    destruct (filter _ records); [inversion Hr | eauto].
Qed.

(** C10: a record whose [user_name] is present with the value [None] is
    counted in the bucket keyed by [None] itself, not in the "Unknown"
    bucket, which counts only the records without the field (and those
    whose name is the string "Unknown"). *)
Theorem null_user_name_bucket (records : list record) (r : record) :
  r ∈ records →
  r !! "user_name" = Some PNone →
  user_key r = PNone
  ∧ (∃ s, user_stats (analyze_records records) !! PNone = Some s
          ∧ UserStats.total s
            = Z.of_nat (length (filter (λ r', r' !! "user_name" = Some PNone)
                                       records)))
  ∧ (∀ s', user_stats (analyze_records records) !! PStr "Unknown" = Some s' →
           UserStats.total s'
           = Z.of_nat (length
               (filter (λ r', r' !! "user_name" = None
                              ∨ r' !! "user_name" = Some (PStr "Unknown"))
                       records))).
Proof.
  intros Hin Hnull.
  assert (user_key r = PNone) as Hkey by (apply user_key_spec; auto).
  split; [exact Hkey |]. split.
  - destruct (proj2 (analyze_records_bucket_is_Some records PNone)) as [s Hs].
    { eauto. }
    exists s. split; [exact Hs |].
    rewrite (analyze_records_bucket_total _ _ _ Hs). do 2 f_equal.
    apply list_filter_iff. intros r'. rewrite user_key_spec.
    split; [intros [? | [_ ?]]; [done | discriminate] | auto].
  - intros s' Hs'. rewrite (analyze_records_bucket_total _ _ _ Hs').
    do 2 f_equal. apply list_filter_iff. intros r'. rewrite user_key_spec.
    tauto.
Qed.

Lemma null_user_name_bucket_witness :
  null_named ∈ null_and_alice
  ∧ null_named !! "user_name" = Some PNone
  ∧ user_key null_named = PNone
  ∧ (∃ s, user_stats (analyze_records null_and_alice) !! PNone = Some s
          ∧ UserStats.total s
            = Z.of_nat (length (filter (λ r', r' !! "user_name" = Some PNone)
                                       null_and_alice)))
  ∧ (∀ s', user_stats (analyze_records null_and_alice) !! PStr "Unknown"
           = Some s' →
           UserStats.total s'
           = Z.of_nat (length
               (filter (λ r', r' !! "user_name" = None
                              ∨ r' !! "user_name" = Some (PStr "Unknown"))
                       null_and_alice))).
Proof.
  assert (null_named ∈ null_and_alice) as Hin
    by (unfold null_and_alice; left).
  assert (null_named !! "user_name" = Some PNone) as Hnull by reflexivity.
  split; [exact Hin |]. split; [exact Hnull |].
  exact (null_user_name_bucket null_and_alice null_named Hin Hnull).
Defined.

(** ** Sums over the user buckets *)

Lemma sum_users_empty (f : UserStats.t → Z) : sum_users f ∅ = 0.
Proof. apply map_fold_empty. Qed.

Lemma sum_users_insert_None (f : UserStats.t → Z) (m : gmap pyval UserStats.t)
    (k : pyval) (v : UserStats.t) :
  m !! k = None → sum_users f (<[k := v]> m) = f v + sum_users f m.
Proof.
  intros Hk. unfold sum_users.
  apply (map_fold_insert_L (λ _ s acc, f s + acc) 0 k v m);
    [intros; lia | exact Hk].
Qed.

Lemma sum_users_insert_Some (f : UserStats.t → Z) (m : gmap pyval UserStats.t)
    (k : pyval) (v x : UserStats.t) :
  m !! k = Some x → sum_users f (<[k := v]> m) = f v + sum_users f m - f x.
Proof.
  intros Hk.
  assert (sum_users f m = f x + sum_users f (delete k m)) as ->.
  { unfold sum_users.
    apply (map_fold_delete_L (λ _ s acc, f s + acc) 0 k x m);
      [intros; lia | exact Hk]. }
  rewrite <- insert_delete_eq.
  rewrite sum_users_insert_None by apply lookup_delete_eq. lia.
Qed.

(** Counting one record adds to the sum what it adds to the record's
    bucket. *)
Lemma sum_users_count_record (f : UserStats.t → Z) (d : record → Z)
    (m : gmap pyval UserStats.t) (r : record) :
  f UserStats.zero = 0 →
  (∀ s, f (count_into s r) = f s + d r) →
  sum_users f (count_record m r) = sum_users f m + d r.
Proof.
  intros Hzero Hstep. unfold count_record.
  destruct (m !! user_key r) as [x |] eqn:Hk; simpl.
  - rewrite (sum_users_insert_Some _ _ _ _ x Hk), Hstep. lia.
  - rewrite (sum_users_insert_None _ _ _ _ Hk), Hstep, Hzero. lia.
Qed.

Lemma sum_users_fold (f : UserStats.t → Z) (cond : record → bool)
    (records : list record) (m : gmap pyval UserStats.t) :
  f UserStats.zero = 0 →
  (∀ s r, f (count_into s r) = f s + if cond r then 1 else 0) →
  sum_users f (fold_left count_record records m)
  = sum_users f m + sum_if cond records.
Proof.
  intros Hzero Hstep. revert m.
  induction records as [| r records IH]; intros m; simpl fold_left.
  - rewrite sum_if_nil. lia.
  - rewrite IH, sum_if_cons.
    rewrite (sum_users_count_record f (λ r, if cond r then 1 else 0)) by auto.
    lia.
Qed.

Lemma sum_users_analyze (f : UserStats.t → Z) (cond : record → bool)
    (records : list record) :
  f UserStats.zero = 0 →
  (∀ s r, f (count_into s r) = f s + if cond r then 1 else 0) →
  sum_users f (user_stats (analyze_records records)) = sum_if cond records.
Proof.
  intros Hzero Hstep. unfold analyze_records; simpl.
  rewrite (sum_users_fold f cond) by assumption.
  rewrite sum_users_empty. lia.
Qed.

Lemma sum_if_true (records : list record) :
  sum_if (λ _, true) records = Z.of_nat (length records).
Proof.
  induction records as [| r records IH]; [reflexivity |].
  rewrite sum_if_cons, IH. simpl length. lia.
Qed.

Lemma sum_if_negb (cond : record → bool) (records : list record) :
  sum_if (λ r, negb (cond r)) records
  = Z.of_nat (length records) - sum_if cond records.
Proof.
  induction records as [| r records IH]; [reflexivity |].
  rewrite !sum_if_cons, IH. simpl length. destruct (cond r); simpl; lia.
Qed.

(** What the per-user counters add up to.  Seven of the eight sums are the
    overall counters; the [failed] counters add up to the records that are
    not successful, whatever their [lusha_api_success] holds. *)
Lemma user_sums (records : list record) :
  let a := analyze_records records in
  let o := overall a in
  sum_users UserStats.total (user_stats a) = Overall.total_calls o
  ∧ sum_users UserStats.success (user_stats a) = Overall.successful_calls o
  ∧ sum_users UserStats.lusha_calls (user_stats a) = Overall.lusha_calls o
  ∧ sum_users UserStats.apollo_calls (user_stats a) = Overall.apollo_calls o
  ∧ sum_users UserStats.phone_found (user_stats a) = Overall.phone_found_total o
  ∧ sum_users UserStats.lusha_phone_found (user_stats a)
    = Overall.lusha_phone_found_total o
  ∧ sum_users UserStats.apollo_phone_found (user_stats a)
    = Overall.apollo_phone_found_total o
  ∧ sum_users UserStats.failed (user_stats a)
    = Overall.total_calls o - Overall.successful_calls o.
Proof.
  intros a o. subst o a.
  pose proof (λ f cond, sum_users_analyze f cond records) as Hsum.
  repeat split.
  - rewrite (Hsum _ (λ _, true)); [apply sum_if_true | reflexivity |].
    intros s r. rewrite count_into_fields. reflexivity.
  - rewrite (Hsum _ (λ r, is_True (get r "lusha_api_success")));
      [reflexivity | reflexivity |].
    intros s r. rewrite count_into_fields. reflexivity.
  - rewrite (Hsum _ (λ r, negb (eq_str (get r "enrichment_source") "APOLLO")));
      [apply sum_if_negb | reflexivity |].
    intros s r. rewrite count_into_fields. simpl.
    destruct (eq_str _ _); reflexivity.
  - rewrite (Hsum _ (λ r, eq_str (get r "enrichment_source") "APOLLO"));
      [reflexivity | reflexivity |].
    intros s r. rewrite count_into_fields. reflexivity.
  - rewrite (Hsum _ (λ r, is_True (get r "phone_found")));
      [reflexivity | reflexivity |].
    intros s r. rewrite count_into_fields. reflexivity.
  - rewrite (Hsum _ (λ r, is_True (get r "phone_found")
                          && negb (eq_str (get r "enrichment_source") "APOLLO")));
      [reflexivity | reflexivity |].
    intros s r. rewrite count_into_fields. reflexivity.
  - rewrite (Hsum _ (λ r, is_True (get r "phone_found")
                          && eq_str (get r "enrichment_source") "APOLLO"));
      [reflexivity | reflexivity |].
    intros s r. rewrite count_into_fields. reflexivity.
  - rewrite (Hsum _ (λ r, negb (is_True (get r "lusha_api_success"))));
      [apply sum_if_negb | reflexivity |].
    intros s r. rewrite count_into_fields. simpl.
    destruct (is_True _); reflexivity.
Qed.

(** What the per-user [failed] counter counts: every record that is not
    successful, whether its [lusha_api_success] is [False], absent or
    anything else. *)
Lemma count_into_failed (s : UserStats.t) (r : record) :
  UserStats.failed (count_into s r)
  = UserStats.failed s
    + if decide (r !! "lusha_api_success" = Some (PBool true)) then 0 else 1.
Proof.
  rewrite count_into_fields. simpl.
  destruct (is_True (get r "lusha_api_success")) eqn:Hs.
  - apply is_True_get in Hs. rewrite decide_True by done. reflexivity.
  - rewrite decide_False; [reflexivity |].
    intros H. apply is_True_get in H. congruence.
Qed.

(** C1, at the records of Scenario B: the [failed] counters of the three
    users add up to 2, while the overall failed_calls is 1. *)
Theorem scenario_b_failed_sum :
  sum_users UserStats.failed (user_stats (analyze_records scenario_b)) = 2
  ∧ Overall.failed_calls (overall (analyze_records scenario_b)) = 1.
Proof. split; vm_compute; reflexivity. Qed.

(** C2, at a single record of user carol without [lusha_api_success]: the
    record is counted in carol's [failed], and not in the overall
    failed_calls. *)
Theorem absent_outcome_user_failed :
  let r : record := {[ "user_name" := PStr "carol" ]} in
  r !! "lusha_api_success" = None
  ∧ user_stats (analyze_records [r]) !! PStr "carol"
    = Some (UserStats.mk 1 0 1 1 0 0 0 0)
  ∧ Overall.failed_calls (overall (analyze_records [r])) = 0.
Proof. repeat split; vm_compute; reflexivity. Qed.

(** ** The order of strings *)

Lemma String_ltb_le (s t : string) :
  String.ltb s t = true ↔ String.le s t ∧ s ≠ t.
Proof.
  unfold String.le, String.leb, String.ltb.
  destruct (String.compare s t) eqn:Hc; simpl.
  - apply String.compare_eq_iff in Hc. split; [discriminate | tauto].
  - split; [intros _ | done]. split; [done |]. intros ->.
    pose proof (String.compare_antisym t t) as Ha. rewrite Hc in Ha.
    discriminate.
  - split; [discriminate | tauto].
Qed.

Lemma String_ltb_irrefl (s : string) : String.ltb s s = false.
Proof.
  destruct (String.ltb s s) eqn:H; [| reflexivity].
  apply String_ltb_le in H. tauto.
Qed.

Lemma String_ltb_trans (s t u : string) :
  String.ltb s t = true → String.ltb t u = true → String.ltb s u = true.
Proof.
  rewrite !String_ltb_le. intros [Hst Hne] [Htu Hne']. split.
  - by trans t.
  - intros ->. apply Hne. by apply (anti_symm String.le).
Qed.

Lemma String_ltb_total (s t : string) :
  s ≠ t → String.ltb s t = true ∨ String.ltb t s = true.
Proof.
  intros Hne. rewrite !String_ltb_le.
  destruct (total String.le s t); [left | right]; split; congruence.
Qed.

(** ** [sorted] *)

Section sorted_correct.
Context {A : Type} (lt : A → A → option bool).

(** [x] sorts strictly before [y]. *)
Let before (x y : A) : Prop := lt x y = Some true.

(** Two elements the comparison orders, one way or the other. *)
Let ordered (x y : A) : Prop :=
  lt x y = Some true ∨ (lt x y = Some false ∧ lt y x = Some true).

Hypothesis before_trans : ∀ x y z, before x y → before y z → before x z.

Lemma sorted_insert_correct (x : A) (l : list A) :
  (∀ y, y ∈ l → ordered x y) →
  StronglySorted before l →
  ∃ l', sorted_insert lt x l = Some l' ∧ l' ≡ₚ x :: l
        ∧ StronglySorted before l'.
Proof.
  induction l as [| y l IH]; intros Hord Hsorted; simpl.
  - exists [x]. repeat split; [done | repeat constructor].
  - apply StronglySorted_inv in Hsorted as [Hsorted Hy].
    destruct (Hord y) as [Hlt | [Hge Hgt]]; [left | |].
    + rewrite Hlt. simpl. exists (x :: y :: l). repeat split; [done |].
      constructor; [by constructor |].
      constructor; [done |].
      eapply Forall_impl; [exact Hy |]. intros z Hz. by eapply before_trans.
    + rewrite Hge. simpl.
      destruct IH as (l' & -> & Hperm & Hl'); [| done |].
      { intros z Hz. apply Hord. by right. }
      simpl. exists (y :: l'). repeat split.
      * rewrite Hperm. apply perm_swap.
      * constructor; [done |]. rewrite Hperm. by constructor.
Qed.

Lemma sorted_correct_acc (l acc : list A) :
  (∀ x y, x ∈ acc ++ l → y ∈ acc ++ l → x ≠ y → ordered x y) →
  NoDup (acc ++ l) →
  StronglySorted before acc →
  ∃ l', foldl (λ acc x, acc' ← acc; sorted_insert lt x acc') (Some acc) l
        = Some l'
        ∧ l' ≡ₚ acc ++ l ∧ StronglySorted before l'.
Proof.
  revert acc. induction l as [| x l IH]; intros acc Hord Hnodup Hacc; simpl.
  - exists acc. by rewrite app_nil_r.
  - destruct (sorted_insert_correct x acc) as (acc' & -> & Hperm & Hacc');
      [| done |].
    { intros y Hy. apply Hord.
      - apply elem_of_app. right. left.
      - apply elem_of_app. by left.
      - intros ->. apply NoDup_app in Hnodup as (_ & Hnot & _).
        apply (Hnot y Hy). left. }
    assert (acc' ++ l ≡ₚ acc ++ x :: l) as Hperm'.
    { rewrite Hperm. simpl. by rewrite Permutation_middle. }
    destruct (IH acc') as (l' & Hl' & Hpl' & Hsl'); [| | done |].
    + intros y z Hy Hz. rewrite Hperm' in Hy, Hz. by apply Hord.
    + by rewrite Hperm'.
    + exists l'. split; [exact Hl' |]. split; [by rewrite Hpl' | done].
Qed.

(** On elements without duplicates that the comparison orders pairwise,
    [sorted] returns the strictly ascending arrangement of its argument. *)
Lemma sorted_correct (l : list A) :
  (∀ x y, x ∈ l → y ∈ l → x ≠ y → ordered x y) →
  NoDup l →
  ∃ l', sorted lt l = Some l' ∧ l' ≡ₚ l ∧ StronglySorted before l'.
Proof.
  intros Hord Hnodup. apply (sorted_correct_acc l []); [done | done |].
  constructor.
Qed.

(** A comparison that raises aborts the insertion, and so the sort. *)
Lemma sorted_insert_raise (x y : A) (l : list A) :
  lt x y = None → sorted_insert lt x (y :: l) = None.
Proof. intros H. simpl. rewrite H. reflexivity. Qed.

Lemma sorted_aborted (l : list A) :
  foldl (λ acc x, acc' ← acc; sorted_insert lt x acc') None l = None.
Proof. induction l; simpl; auto. Qed.
End sorted_correct.

(** ** The report file *)

Lemma writerow_run (name : string) (r : row) (fs : gmap string (list row))
    (rows : list row) (t : list event) :
  writerow name r {| files := <[name := rows]> fs; trace := t |}
  = (Ok (), {| files := <[name := rows ++ [r]]> fs; trace := t |}).
Proof.
  unfold writerow. simpl. rewrite lookup_insert_eq, insert_insert_eq.
  reflexivity.
Qed.

Lemma write_user_rows_run (name : string) (items : list (pyval * UserStats.t))
    (fs : gmap string (list row)) (rows : list row) (t : list event) :
  for_each items (λ item, writerow name (user_row item))
           {| files := <[name := rows]> fs; trace := t |}
  = (Ok (), {| files := <[name := rows ++ (user_row <$> items)]> fs;
               trace := t |}).
Proof.
  revert rows. induction items as [| item items IH]; intros rows; simpl.
  - by rewrite app_nil_r.
  - unfold bind. rewrite writerow_run, IH, <- app_assoc. reflexivity.
Qed.

(** [generate_csv], run: the head of the report is written first; then the
    items are sorted, which either raises and leaves the head alone in the
    file, or yields the items whose rows complete the file. *)
Lemma generate_csv_run (env : Env) (analysis : AnalysisResult) (st : State) :
  generate_csv env analysis st
  = match sorted item_lt (map_to_list (user_stats analysis)) with
    | None =>
        (Raise TypeError,
         {| files := <[report_name env := report_head (overall analysis)]>
                       (files st);
            trace := trace st |})
    | Some items =>
        (Ok (report_name env),
         {| files := <[report_name env :=
                         report_head (overall analysis) ++ (user_row <$> items)]>
                       (files st);
            trace := trace st |})
    end.
Proof.
  unfold generate_csv. fold (report_name env).
  unfold bind at 1. unfold open_w at 1.
  do 14 (unfold bind at 1; rewrite writerow_run).
  destruct (sorted item_lt _) as [items |]; [| reflexivity].
  unfold bind at 1. rewrite write_user_rows_run. reflexivity.
Qed.

(** ** Ordering the items of [user_stats] *)

Lemma py_lt_irrefl (a : pyval) : py_lt a a ≠ Some true.
Proof.
  destruct a as [| b | s]; simpl; [discriminate | |].
  - destruct b; discriminate.
  - rewrite String_ltb_irrefl. discriminate.
Qed.

Lemma py_lt_trans (a b c : pyval) :
  py_lt a b = Some true → py_lt b c = Some true → py_lt a c = Some true.
Proof.
  destruct a as [| x | s], b as [| y | t], c as [| z | u]; simpl;
    try discriminate.
  - destruct x, y, z; simpl; congruence.
  - intros [= H1] [= H2]. f_equal. by eapply String_ltb_trans.
Qed.

Lemma item_lt_Some_true (x y : pyval * UserStats.t) :
  item_lt x y = Some true ↔ x.1 ≠ y.1 ∧ py_lt x.1 y.1 = Some true.
Proof.
  unfold item_lt. destruct (decide (x.1 = y.1)) as [Heq | Hne].
  - split; [destruct (decide (x.2 = y.2)); discriminate | tauto].
  - tauto.
Qed.

Lemma item_lt_trans (x y z : pyval * UserStats.t) :
  item_lt x y = Some true → item_lt y z = Some true → item_lt x z = Some true.
Proof.
  rewrite !item_lt_Some_true. intros [_ Hxy] [_ Hyz].
  assert (py_lt x.1 z.1 = Some true) as Hxz by (by eapply py_lt_trans).
  split; [| done]. intros Heq. rewrite Heq in Hxz. by apply py_lt_irrefl in Hxz.
Qed.

(** Items with different string names are ordered, one way or the other. *)
Lemma item_lt_str_ordered (x y : pyval * UserStats.t) :
  is_str x.1 → is_str y.1 → x.1 ≠ y.1 →
  item_lt x y = Some true
  ∨ (item_lt x y = Some false ∧ item_lt y x = Some true).
Proof.
  destruct x as [[| b | s] v], y as [[| c | t] w]; simpl; try tauto.
  intros _ _ Hne. unfold item_lt; simpl.
  rewrite !decide_False by congruence. simpl.
  destruct (String_ltb_total s t) as [H | H]; [congruence | | ].
  - left. by rewrite H.
  - right. rewrite H. split; [| done].
    destruct (String.ltb s t) eqn:Hst; [| done].
    pose proof (String_ltb_trans _ _ _ Hst H) as Hss.
    rewrite String_ltb_irrefl in Hss. discriminate.
Qed.

Lemma StronglySorted_weaken {A} (R R' : A → A → Prop) (l : list A) :
  (∀ x y, x ∈ l → y ∈ l → R x y → R' x y) →
  StronglySorted R l → StronglySorted R' l.
Proof.
  intros Himpl Hsorted. induction Hsorted as [| x l Hl IH Hx]; constructor.
  - apply IH. intros y z Hy Hz. apply Himpl; by right.
  - apply Forall_forall. intros y Hy.
    apply Himpl; [left | by right |]. by eapply Forall_forall in Hx.
Qed.

(** The items of a dictionary whose keys are all strings sort without an
    error, into strictly ascending order of the names. *)
Lemma sorted_items_str (m : gmap pyval UserStats.t) :
  map_Forall (λ k _, is_str k) m →
  ∃ items, sorted item_lt (map_to_list m) = Some items
           ∧ items ≡ₚ map_to_list m
           ∧ StronglySorted (λ x y, user_name_lt x.1 y.1) items.
Proof.
  intros Hstr.
  assert (∀ x, x ∈ map_to_list m → is_str x.1) as Hin.
  { intros [k v] Hx. apply elem_of_map_to_list in Hx. by eapply Hstr. }
  destruct (sorted_correct item_lt item_lt_trans (map_to_list m))
    as (items & Hsorted & Hperm & Hord).
  - intros [k v] [k' v'] Hx Hy Hne.
    apply item_lt_str_ordered; [by apply Hin | by apply Hin |].
    simpl. intros ->. apply Hne. f_equal.
    apply elem_of_map_to_list in Hx, Hy. congruence.
  - apply NoDup_map_to_list.
  - exists items. split; [done |]. split; [done |].
    eapply StronglySorted_weaken; [| exact Hord].
    intros x y Hx Hy Hlt. simpl in Hlt.
    apply item_lt_Some_true in Hlt as [_ Hlt].
    rewrite Hperm in Hx, Hy. apply Hin in Hx, Hy.
    destruct x as [[| b | s] v], y as [[| c | t] w]; simpl in *; try tauto.
    exists s, t. repeat split. congruence.
Qed.

(** C7, amended: for every analysis result whose user names are all
    strings, [generate_csv] returns the report name, and the user-wise
    section of the report holds exactly one row per user, in strictly
    ascending lexicographic order of the user names. *)
Theorem generate_csv_user_rows (env : Env) (analysis : AnalysisResult)
    (st : State) :
  map_Forall (λ k _, is_str k) (user_stats analysis) →
  (generate_csv env analysis st).1 = Ok (report_name env)
  ∧ one_sorted_row_per_user env analysis st.
Proof.
  intros Hstr.
  destruct (sorted_items_str _ Hstr) as (items & Hsorted & Hperm & Hord).
  unfold one_sorted_row_per_user, report_rows.
  rewrite generate_csv_run, Hsorted. simpl.
  split; [reflexivity |].
  exists items. rewrite lookup_insert_eq. simpl. auto.
Qed.

Lemma generate_csv_user_rows_witness :
  map_Forall (λ k _, is_str k) (user_stats (analyze_records scenario_b))
  ∧ (generate_csv (example_env example_config scenario_b)
                  (analyze_records scenario_b) empty_state).1
    = Ok "api_performance_report_20240131_090000.csv"
  ∧ one_sorted_row_per_user (example_env example_config scenario_b)
                            (analyze_records scenario_b) empty_state.
Proof.
  assert (map_Forall (λ k _, is_str k)
                     (user_stats (analyze_records scenario_b))) as Hstr.
  { apply map_Forall_to_list. vm_compute. repeat constructor. }
  split; [exact Hstr |].
  exact (generate_csv_user_rows (example_env example_config scenario_b)
                                (analyze_records scenario_b) empty_state Hstr).
Defined.

(** C7 as stated fails for a result with the user names [None] and
    "alice": sorting the items raises [TypeError], and the report is left
    with its head only, without a row for either user. *)
Lemma generate_csv_null_user_name :
  (generate_csv (example_env example_config null_and_alice)
                (analyze_records null_and_alice) empty_state).1
  = Raise TypeError
  ∧ ¬ one_sorted_row_per_user (example_env example_config null_and_alice)
                              (analyze_records null_and_alice) empty_state.
Proof.
  split; [vm_compute; reflexivity |].
  intros (items & Hrows & Hperm & _).
  apply Permutation_length in Hperm.
  assert (length (user_row <$> items) = 0%nat) as Hlen
    by (rewrite <- Hrows; vm_compute; reflexivity).
  rewrite length_fmap in Hlen. rewrite Hlen in Hperm.
  vm_compute in Hperm. discriminate.
Qed.

Lemma sorted_insert_Permutation {A} (lt : A → A → option bool) (x : A)
    (l l' : list A) :
  sorted_insert lt x l = Some l' → l' ≡ₚ x :: l.
Proof.
  revert l'. induction l as [| y l IH]; intros l'; simpl.
  - by intros [= <-].
  - destruct (lt x y) as [[|] |]; simpl; [by intros [= <-] | | done].
    destruct (sorted_insert lt x l) as [l'' |]; simpl; [| done].
    intros [= <-]. rewrite (IH l'') by done. apply perm_swap.
Qed.

Lemma sorted_step {A} (lt : A → A → option bool) (x : A) (acc l : list A) :
  foldl (λ acc x, acc' ← acc; sorted_insert lt x acc') (Some acc) (x :: l)
  = foldl (λ acc x, acc' ← acc; sorted_insert lt x acc')
          (sorted_insert lt x acc) l.
Proof. reflexivity. Qed.

(** Comparing a [None] name with a different name raises. *)
Lemma item_lt_None (x y : pyval * UserStats.t) :
  x.1 ≠ y.1 → x.1 = PNone ∨ y.1 = PNone → item_lt x y = None.
Proof.
  destruct x as [k v], y as [k' v']; simpl. intros Hne Hnone.
  unfold item_lt; simpl. rewrite decide_False by done.
  destruct Hnone as [-> | ->]; [reflexivity | by destruct k].
Qed.

Lemma sorted_None_key_acc (l acc : list (pyval * UserStats.t))
    (s : UserStats.t) :
  (PNone, s) ∈ l → acc ≠ [] → (∀ a, a ∈ acc → a.1 ≠ PNone) →
  foldl (λ acc x, acc' ← acc; sorted_insert item_lt x acc') (Some acc) l
  = None.
Proof.
  revert acc. induction l as [| z l IH]; intros acc Hin Hacc Hkeys.
  { inversion Hin. }
  rewrite sorted_step. destruct acc as [| a acc]; [done |].
  destruct (decide (z.1 = PNone)) as [Hz | Hz].
  - rewrite sorted_insert_raise; [apply sorted_aborted |].
    apply item_lt_None; [| by left].
    rewrite Hz. intros Heq. symmetry in Heq. revert Heq. apply Hkeys. left.
  - apply elem_of_cons in Hin as [Heq | Hin]; [by subst z |].
    destruct (sorted_insert item_lt z (a :: acc)) as [acc' |] eqn:Hins;
      [| apply sorted_aborted].
    apply sorted_insert_Permutation in Hins. apply IH; [done | |].
    + intros ->. by apply Permutation_nil_cons in Hins.
    + intros b Hb. rewrite Hins in Hb.
      apply elem_of_cons in Hb as [-> | Hb]; [done | by apply Hkeys].
Qed.

(** A [None] among two or more user names makes [sorted] raise, in
    whatever order the dictionary lists its items. *)
Lemma sorted_None_key (l : list (pyval * UserStats.t)) (s : UserStats.t) :
  (PNone, s) ∈ l → (2 ≤ length l)%nat → NoDup (l.*1) →
  sorted item_lt l = None.
Proof.
  intros Hin Hlen Hnodup. unfold sorted.
  destruct l as [| x [| y l]]; simpl in Hlen; [lia | lia |].
  change (foldl _ (Some []) (x :: y :: l))
    with (foldl (λ acc x, acc' ← acc; sorted_insert item_lt x acc')
                (Some [x]) (y :: l)).
  destruct (decide (x.1 = PNone)) as [Hx | Hx].
  - rewrite sorted_step, sorted_insert_raise; [apply sorted_aborted |].
    apply item_lt_None; [| by right].
    simpl in Hnodup. apply NoDup_cons in Hnodup as [Hnot _].
    intros Heq. apply Hnot. rewrite Heq. left.
  - apply (sorted_None_key_acc _ _ s); [| done |].
    + apply elem_of_cons in Hin as [Heq | Hin]; [by subst x | done].
    + intros a Ha. apply list_elem_of_singleton in Ha as ->. done.
Qed.

(** With a [None] user name next to another user, [generate_csv] raises
    [TypeError] after writing the head of the report. *)
Lemma generate_csv_None_key (env : Env) (analysis : AnalysisResult)
    (st : State) (s : UserStats.t) :
  user_stats analysis !! PNone = Some s →
  (2 ≤ size (user_stats analysis))%nat →
  (generate_csv env analysis st).1 = Raise TypeError
  ∧ report_rows env analysis st = report_head (overall analysis).
Proof.
  intros Hnone Hsize. unfold report_rows. rewrite generate_csv_run.
  rewrite (sorted_None_key _ s).
  - simpl. by rewrite lookup_insert_eq.
  - by apply elem_of_map_to_list.
  - by rewrite length_map_to_list.
  - apply NoDup_fst_map_to_list.
Qed.

(** ** The mail step and the run *)

Lemma smtp_steps_app (t u : list event) :
  smtp_steps (t ++ u) = smtp_steps t ++ smtp_steps u.
Proof. apply omap_app. Qed.

(** When one of the three required settings is unset or empty, the call
    prints the diagnostic and returns [False] at once. *)
Lemma send_email_with_csv_falsy (env : Env) (csv_filename : string)
    (analysis : AnalysisResult) (st : State) :
  truthy (SMTP_PASSWORD (config env)) = false
  ∨ truthy (DEFAULT_FROM_EMAIL (config env)) = false
  ∨ truthy (RECIPIENT_EMAIL (config env)) = false →
  send_email_with_csv env csv_filename analysis st
  = (Ok false,
     {| files := files st;
        trace := trace st ++ missing_email_configuration |}).
Proof.
  intros Hmissing. unfold send_email_with_csv, try_except.
  assert (truthy (SMTP_PASSWORD (config env))
          && truthy (DEFAULT_FROM_EMAIL (config env))
          && truthy (RECIPIENT_EMAIL (config env)) = false) as ->.
  { destruct Hmissing as [-> | [-> | ->]];
      rewrite ?andb_false_r; reflexivity. }
  simpl. unfold bind, print, emit, ret. simpl.
  rewrite <- app_assoc. reflexivity.
Qed.

(** C9: when a required mail setting (the password, the sender address,
    which is also the login name, or the recipient address) is missing,
    [send_email_with_csv] fails with the configuration diagnostic and the
    result [False]; nothing is read or sent and no SMTP connection is
    opened.  A missing recipient address is one such case. *)
Theorem send_email_with_csv_missing_config (env : Env) (csv_filename : string)
    (analysis : AnalysisResult) (st : State) :
  SMTP_PASSWORD (config env) = None
  ∨ DEFAULT_FROM_EMAIL (config env) = None
  ∨ RECIPIENT_EMAIL (config env) = None →
  let '(res, st') := send_email_with_csv env csv_filename analysis st in
  res = Ok false
  ∧ trace st' = trace st ++ missing_email_configuration
  ∧ smtp_steps (trace st') = smtp_steps (trace st)
  ∧ files st' = files st.
Proof.
  intros Hmissing. rewrite send_email_with_csv_falsy.
  - simpl. repeat split. rewrite smtp_steps_app. simpl. apply app_nil_r.
  - destruct Hmissing as [-> | [-> | ->]]; auto.
Qed.

Lemma send_email_with_csv_missing_config_witness :
  RECIPIENT_EMAIL (config (example_env config_without_recipient scenario_b))
  = None
  ∧ let '(res, st') :=
      send_email_with_csv (example_env config_without_recipient scenario_b)
                          "report.csv" (analyze_records scenario_b)
                          empty_state in
    res = Ok false
    ∧ trace st' = trace empty_state ++ missing_email_configuration
    ∧ smtp_steps (trace st') = smtp_steps (trace empty_state)
    ∧ files st' = files empty_state.
Proof.
  split; [reflexivity |].
  apply (send_email_with_csv_missing_config
           (example_env config_without_recipient scenario_b) "report.csv"
           (analyze_records scenario_b) empty_state).
  right. right. reflexivity.
Defined.

(** [main], run on an empty window: either the connection failed, which
    prints one diagnostic, or the fetch returned no record; in both cases
    [main] returns there. *)
Lemma main_no_records_run (env : Env) (st : State) :
  window_records env = [] →
  main env st = (Ok (), (connect_to_mongodb env st).2).
Proof.
  intros Hempty. unfold main, bind.
  destruct (connect_to_mongodb env st) as [[[c |] | e] st'] eqn:Hc; simpl.
  - unfold fetch_last_24_hours_records, ret. rewrite Hempty. reflexivity.
  - reflexivity.
  - exfalso. revert Hc. unfold connect_to_mongodb, try_except, bind, print,
      emit, ret, raise.
    repeat (simpl; case_match); congruence.
Qed.

(** [connect_to_mongodb] writes no file and opens no SMTP connection, and
    leaves the state untouched when it returns the collection. *)
Lemma connect_to_mongodb_effects (env : Env) (st : State) :
  let '(res, st') := connect_to_mongodb env st in
  files st' = files st
  ∧ smtp_steps (trace st') = smtp_steps (trace st)
  ∧ (∀ c, res = Ok (Some c) → st' = st).
Proof.
  unfold connect_to_mongodb, try_except, bind, print, emit, ret, raise.
  repeat (simpl; case_match); simplify_eq/=;
    rewrite ?smtp_steps_app, ?app_nil_r; repeat split; try done;
    intros c [=].
Qed.

(** C8: when the window holds no record, [main] returns normally without
    writing a report file and without any step of an SMTP conversation;
    when the collection was reached, the run changes nothing at all. *)
Theorem main_no_records (env : Env) (st : State) :
  window_records env = [] →
  let '(res, st') := main env st in
  res = Ok ()
  ∧ files st' = files st
  ∧ smtp_steps (trace st') = smtp_steps (trace st)
  ∧ (∀ c, (connect_to_mongodb env st).1 = Ok (Some c) → st' = st).
Proof.
  intros Hempty. rewrite main_no_records_run by done.
  pose proof (connect_to_mongodb_effects env st) as Hconn.
  destruct (connect_to_mongodb env st) as [res st']. simpl.
  destruct Hconn as (Hfiles & Hsmtp & Hsame). auto.
Qed.

Lemma main_no_records_witness :
  window_records (example_env example_config []) = []
  ∧ let '(res, st') := main (example_env example_config []) empty_state in
    res = Ok ()
    ∧ files st' = files empty_state
    ∧ smtp_steps (trace st') = smtp_steps (trace empty_state)
    ∧ (∀ c, (connect_to_mongodb (example_env example_config []) empty_state).1
            = Ok (Some c) → st' = empty_state).
Proof.
  split; [reflexivity |].
  apply (main_no_records (example_env example_config []) empty_state).
  reflexivity.
Defined.

(** * Further properties of the aggregation *)

Lemma sum_if_nonneg (cond : record → bool) (records : list record) :
  0 ≤ sum_if cond records.
Proof.
  induction records as [| r records IH]; [reflexivity |].
  rewrite sum_if_cons. destruct (cond r); lia.
Qed.

Lemma sum_if_le (c d : record → bool) (records : list record) :
  (∀ r, c r = true → d r = true) →
  sum_if c records ≤ sum_if d records.
Proof.
  intros Himpl. induction records as [| r records IH]; [reflexivity |].
  rewrite !sum_if_cons. specialize (Himpl r).
  destruct (c r), (d r); lia.
Qed.

Lemma sum_if_le_length (cond : record → bool) (records : list record) :
  sum_if cond records ≤ Z.of_nat (length records).
Proof.
  rewrite <- sum_if_true. apply sum_if_le. reflexivity.
Qed.

Lemma sum_if_split (c d : record → bool) (records : list record) :
  sum_if (λ r, c r && d r) records + sum_if (λ r, c r && negb (d r)) records
  = sum_if c records.
Proof.
  induction records as [| r records IH]; [reflexivity |].
  rewrite !sum_if_cons. destruct (c r), (d r); simpl; lia.
Qed.

Lemma sum_if_app (cond : record → bool) (l1 l2 : list record) :
  sum_if cond (l1 ++ l2) = sum_if cond l1 + sum_if cond l2.
Proof.
  induction l1 as [| r l1 IH]; simpl app.
  - rewrite sum_if_nil. lia.
  - rewrite !sum_if_cons, IH. lia.
Qed.

Lemma sum_if_Permutation (cond : record → bool) (l1 l2 : list record) :
  l1 ≡ₚ l2 → sum_if cond l1 = sum_if cond l2.
Proof.
  induction 1 as [| r l1 l2 _ IH | r r' l | l1 l2 l3 _ IH1 _ IH2].
  - reflexivity.
  - rewrite !sum_if_cons, IH. reflexivity.
  - rewrite !sum_if_cons. lia.
  - congruence.
Qed.

(** X1: phone_found_total counts the records whose [phone_found] is exactly
    [True], phone_not_found_total those where it is exactly [False]; their
    sum is at most total_calls, with equality iff every record has the
    field set to [True] or [False]. *)
Theorem overall_phone_found (records : list record) :
  let o := overall (analyze_records records) in
  let found := λ r : record, r !! "phone_found" = Some (PBool true) in
  let not_found := λ r : record, r !! "phone_found" = Some (PBool false) in
  Overall.phone_found_total o = Z.of_nat (length (filter found records))
  ∧ Overall.phone_not_found_total o
    = Z.of_nat (length (filter not_found records))
  ∧ Overall.phone_found_total o + Overall.phone_not_found_total o
    ≤ Overall.total_calls o
  ∧ (Overall.phone_found_total o + Overall.phone_not_found_total o
     = Overall.total_calls o
     ↔ Forall (λ r, found r ∨ not_found r) records).
Proof.
  intros o found not_found. subst o. unfold analyze_records. simpl.
  rewrite (sum_if_count _ found) by (intros r; apply is_True_get).
  rewrite (sum_if_count _ not_found) by (intros r; apply is_False_get).
  destruct (length_filter_split found not_found records) as [Hle Heq].
  { unfold found, not_found. intros r H1 H2. congruence. }
  repeat split; try lia.
  - intros H. apply Heq. lia.
  - intros H. apply Heq in H. lia.
Qed.

(** X2: every overall counter lies between 0 and total_calls; the phones
    found split exactly between the two providers, and no provider has more
    phones found than calls. *)
Theorem overall_bounds (records : list record) :
  let o := overall (analyze_records records) in
  Overall.total_calls o = Z.of_nat (length records)
  ∧ 0 ≤ Overall.successful_calls o ≤ Overall.total_calls o
  ∧ 0 ≤ Overall.failed_calls o ≤ Overall.total_calls o
  ∧ 0 ≤ Overall.apollo_calls o ≤ Overall.total_calls o
  ∧ 0 ≤ Overall.lusha_calls o ≤ Overall.total_calls o
  ∧ 0 ≤ Overall.phone_not_found_total o ≤ Overall.total_calls o
  ∧ Overall.apollo_phone_found_total o + Overall.lusha_phone_found_total o
    = Overall.phone_found_total o
  ∧ 0 ≤ Overall.apollo_phone_found_total o ≤ Overall.apollo_calls o
  ∧ 0 ≤ Overall.lusha_phone_found_total o ≤ Overall.lusha_calls o.
Proof.
  intros o. subst o. unfold analyze_records. simpl.
  set (phone := λ r : record, is_True (get r "phone_found")).
  set (apollo := λ r : record, eq_str (get r "enrichment_source") "APOLLO").
  pose proof (sum_if_split phone apollo records) as Hsplit.
  pose proof (sum_if_negb apollo records) as Hlusha.
  pose proof (sum_if_le (λ r, phone r && apollo r) apollo records) as Hap.
  pose proof (sum_if_le (λ r, phone r && negb (apollo r))
                        (λ r, negb (apollo r)) records) as Hlp.
  pose proof (λ c, sum_if_nonneg c records) as H0.
  pose proof (λ c, sum_if_le_length c records) as Hn.
  assert (∀ a b : bool, a && b = true → b = true) as Hand
    by (intros [] []; simpl; congruence).
  specialize (Hap (λ r, Hand _ _)). specialize (Hlp (λ r, Hand _ _)).
  pose proof (H0 (λ r, is_True (get r "lusha_api_success"))).
  pose proof (Hn (λ r, is_True (get r "lusha_api_success"))).
  pose proof (H0 (λ r, is_False (get r "lusha_api_success"))).
  pose proof (Hn (λ r, is_False (get r "lusha_api_success"))).
  pose proof (H0 (λ r, is_False (get r "phone_found"))).
  pose proof (Hn (λ r, is_False (get r "phone_found"))).
  pose proof (H0 apollo). pose proof (Hn apollo).
  pose proof (H0 (λ r, phone r && apollo r)).
  pose proof (H0 (λ r, phone r && negb (apollo r))).
  fold phone apollo.
  change (sum_if (λ r, is_True (get r "phone_found")
                       && eq_str (get r "enrichment_source") "APOLLO") records)
    with (sum_if (λ r, phone r && apollo r) records).
  change (sum_if (λ r, is_True (get r "phone_found")
                       && negb (eq_str (get r "enrichment_source") "APOLLO"))
                 records)
    with (sum_if (λ r, phone r && negb (apollo r)) records).
  lia.
Qed.

(** The bucket after counting a list of records into it. *)
Lemma fold_count_into_closed (l : list record) (z : UserStats.t) :
  let success := λ r : record, is_True (get r "lusha_api_success") in
  let phone := λ r : record, is_True (get r "phone_found") in
  let apollo := λ r : record, eq_str (get r "enrichment_source") "APOLLO" in
  fold_left count_into l z =
  UserStats.mk
    (UserStats.total z + Z.of_nat (length l))
    (UserStats.success z + sum_if success l)
    (UserStats.failed z + sum_if (λ r, negb (success r)) l)
    (UserStats.lusha_calls z + sum_if (λ r, negb (apollo r)) l)
    (UserStats.lusha_phone_found z + sum_if (λ r, phone r && negb (apollo r)) l)
    (UserStats.apollo_calls z + sum_if apollo l)
    (UserStats.apollo_phone_found z + sum_if (λ r, phone r && apollo r) l)
    (UserStats.phone_found z + sum_if phone l).
Proof.
  intros success phone apollo. revert z.
  induction l as [| r l IH]; intros z; simpl fold_left.
  - rewrite !sum_if_nil. simpl. rewrite !Z.add_0_r. by destruct z.
  - rewrite IH, count_into_fields, !sum_if_cons. simpl.
    fold (success r) (phone r) (apollo r).
    destruct (success r), (phone r), (apollo r); simpl; f_equal; lia.
Qed.

(** X3: a user has a bucket iff some record carries their name ("Unknown"
    standing for an absent field), and there are never more buckets than
    records. *)
Theorem user_stats_keys (records : list record) :
  (∀ k, is_Some (user_stats (analyze_records records) !! k)
        ↔ ∃ r, r ∈ records ∧ user_key r = k)
  ∧ (size (user_stats (analyze_records records)) ≤ length records)%nat.
Proof.
  split; [intros k; apply analyze_records_bucket_is_Some |].
  unfold analyze_records; simpl.
  assert (∀ (l : list record) (m : gmap pyval UserStats.t),
            (size (fold_left count_record l m) ≤ size m + length l)%nat)
    as Hsize.
  { induction l as [| r l IH]; intros m; simpl; [lia |].
    etrans; [apply IH |]. unfold count_record. rewrite map_size_insert.
    destruct (m !! user_key r); simpl; lia. }
  specialize (Hsize records ∅). rewrite map_size_empty in Hsize. lia.
Qed.

(** X4: the bucket of a user holds the overall statistics of that user's
    own records, for total, success, the calls and the phones found of
    either provider and the phones found. *)
Theorem user_bucket_own_overall (records : list record) (k : pyval)
    (s : UserStats.t) :
  user_stats (analyze_records records) !! k = Some s →
  let o := overall (analyze_records (filter (λ r, user_key r = k) records)) in
  UserStats.total s = Overall.total_calls o
  ∧ UserStats.success s = Overall.successful_calls o
  ∧ UserStats.lusha_calls s = Overall.lusha_calls o
  ∧ UserStats.lusha_phone_found s = Overall.lusha_phone_found_total o
  ∧ UserStats.apollo_calls s = Overall.apollo_calls o
  ∧ UserStats.apollo_phone_found s = Overall.apollo_phone_found_total o
  ∧ UserStats.phone_found s = Overall.phone_found_total o.
Proof.
  rewrite analyze_records_bucket.
  destruct (filter _ records) as [| r mine] eqn:Hf; [discriminate |].
  intros Hs.
  assert (s = fold_left count_into (r :: mine) UserStats.zero) as ->
    by congruence.
  rewrite fold_count_into_closed. unfold analyze_records. simpl.
  rewrite (sum_if_negb (λ r, eq_str (get r "enrichment_source") "APOLLO")
                       (r :: mine)).
  simpl length. repeat split; try reflexivity.
Qed.

Lemma user_bucket_own_overall_witness :
  user_stats (analyze_records scenario_b) !! PStr "alice"
  = Some (UserStats.mk 1 1 0 1 1 0 0 1)
  ∧ let o := overall (analyze_records
                        (filter (λ r, user_key r = PStr "alice") scenario_b)) in
    1 = Overall.total_calls o
    ∧ 1 = Overall.successful_calls o
    ∧ 1 = Overall.lusha_calls o
    ∧ 1 = Overall.lusha_phone_found_total o
    ∧ 0 = Overall.apollo_calls o
    ∧ 0 = Overall.apollo_phone_found_total o
    ∧ 1 = Overall.phone_found_total o.
Proof.
  assert (user_stats (analyze_records scenario_b) !! PStr "alice"
          = Some (UserStats.mk 1 1 0 1 1 0 0 1)) as Hs
    by (vm_compute; reflexivity).
  split; [exact Hs |].
  exact (user_bucket_own_overall scenario_b (PStr "alice") _ Hs).
Defined.

Lemma user_sums_seven (records : list record) :
  let a := analyze_records records in
  let o := overall a in
  sum_users UserStats.total (user_stats a) = Overall.total_calls o
  ∧ sum_users UserStats.success (user_stats a) = Overall.successful_calls o
  ∧ sum_users UserStats.lusha_calls (user_stats a) = Overall.lusha_calls o
  ∧ sum_users UserStats.apollo_calls (user_stats a) = Overall.apollo_calls o
  ∧ sum_users UserStats.phone_found (user_stats a) = Overall.phone_found_total o
  ∧ sum_users UserStats.lusha_phone_found (user_stats a)
    = Overall.lusha_phone_found_total o
  ∧ sum_users UserStats.apollo_phone_found (user_stats a)
    = Overall.apollo_phone_found_total o.
Proof.
  intros a o. pose proof (user_sums records) as H. simpl in H.
  subst o a. tauto.
Qed.

(** X5: summed over all users, the counters total, success, lusha_calls,
    apollo_calls, phone_found, lusha_phone_found and apollo_phone_found
    give the corresponding overall counters. *)
Theorem user_sums_overall (records : list record) :
  let a := analyze_records records in
  let o := overall a in
  sum_users UserStats.total (user_stats a) = Overall.total_calls o
  ∧ sum_users UserStats.success (user_stats a) = Overall.successful_calls o
  ∧ sum_users UserStats.lusha_calls (user_stats a) = Overall.lusha_calls o
  ∧ sum_users UserStats.apollo_calls (user_stats a) = Overall.apollo_calls o
  ∧ sum_users UserStats.phone_found (user_stats a) = Overall.phone_found_total o
  ∧ sum_users UserStats.lusha_phone_found (user_stats a)
    = Overall.lusha_phone_found_total o
  ∧ sum_users UserStats.apollo_phone_found (user_stats a)
    = Overall.apollo_phone_found_total o.
Proof. intros; apply user_sums_seven; assumption. Qed.

(** X6: every bucket counts at least one record; its counters are not
    negative, success is at most total, the phones found split exactly
    between the two providers, and no provider has more phones found than
    calls. *)
Theorem user_bucket_bounds (records : list record) :
  map_Forall
    (λ _ s,
       1 ≤ UserStats.total s
       ∧ 0 ≤ UserStats.success s ≤ UserStats.total s
       ∧ 0 ≤ UserStats.failed s
       ∧ UserStats.lusha_phone_found s + UserStats.apollo_phone_found s
         = UserStats.phone_found s
       ∧ 0 ≤ UserStats.lusha_phone_found s ≤ UserStats.lusha_calls s
       ∧ 0 ≤ UserStats.apollo_phone_found s ≤ UserStats.apollo_calls s)
    (user_stats (analyze_records records)).
Proof.
  intros k s Hs. split.
  - rewrite (analyze_records_bucket_total _ _ _ Hs).
    destruct (proj1 (analyze_records_bucket_is_Some records k)) as (r & Hr & Hk);
      [eauto |].
    assert (r ∈ filter (λ r, user_key r = k) records) as Hin
      by (by apply list_elem_of_filter).
    destruct (filter _ records); [inversion Hin | simpl length; lia].
  - revert k s Hs.
    apply (analyze_records_buckets_ind
             (λ s, 0 ≤ UserStats.success s ≤ UserStats.total s
                   ∧ 0 ≤ UserStats.failed s
                   ∧ UserStats.lusha_phone_found s
                     + UserStats.apollo_phone_found s
                     = UserStats.phone_found s
                   ∧ 0 ≤ UserStats.lusha_phone_found s ≤ UserStats.lusha_calls s
                   ∧ 0 ≤ UserStats.apollo_phone_found s
                     ≤ UserStats.apollo_calls s)).
    + simpl. lia.
    + intros s r H. rewrite count_into_fields. simpl.
      destruct (is_True (get r "lusha_api_success")),
               (is_True (get r "phone_found")),
               (eq_str (get r "enrichment_source") "APOLLO"); simpl; lia.
Qed.

Lemma fold_count_into_Permutation (l1 l2 : list record) (z : UserStats.t) :
  l1 ≡ₚ l2 → fold_left count_into l1 z = fold_left count_into l2 z.
Proof.
  intros Hperm. rewrite !fold_count_into_closed.
  rewrite (Permutation_length Hperm).
  by rewrite !(sum_if_Permutation _ l1 l2 Hperm).
Qed.

(** X7: the order of the records is irrelevant: rearranging them gives the
    same overall statistics and the same buckets. *)
Theorem analyze_records_Permutation (records records' : list record) :
  records ≡ₚ records' →
  analyze_records records = analyze_records records'.
Proof.
  intros Hperm.
  assert (user_stats (analyze_records records)
          = user_stats (analyze_records records')) as Husers.
  { apply map_eq. intros k. rewrite !analyze_records_bucket.
    assert (filter (λ r, user_key r = k) records
            ≡ₚ filter (λ r, user_key r = k) records') as Hf
      by (by rewrite Hperm).
    destruct (filter _ records) as [| r mine].
    - apply Permutation_nil_l in Hf. by rewrite <- Hf.
    - destruct (filter _ records') as [| r' mine'].
      + by apply Permutation_nil_r in Hf.
      + f_equal. by apply fold_count_into_Permutation. }
  unfold analyze_records in *. simpl in Husers. rewrite Husers.
  rewrite (Permutation_length Hperm).
  by rewrite !(sum_if_Permutation _ records records' Hperm).
Qed.

Lemma analyze_records_Permutation_witness :
  scenario_b ≡ₚ reverse scenario_b
  ∧ analyze_records scenario_b = analyze_records (reverse scenario_b).
Proof.
  assert (scenario_b ≡ₚ reverse scenario_b) as Hperm
    by (symmetry; apply reverse_Permutation).
  split; [exact Hperm |].
  exact (analyze_records_Permutation scenario_b (reverse scenario_b) Hperm).
Defined.

Lemma bucket_of_analyze (records : list record) (k : pyval) :
  bucket_of (user_stats (analyze_records records)) k
  = fold_left count_into (filter (λ r, user_key r = k) records) UserStats.zero.
Proof.
  unfold bucket_of. rewrite analyze_records_bucket.
  destruct (filter _ records); reflexivity.
Qed.

(** X8: analysing two batches of records together adds up, field by field,
    the overall statistics of the batches and the buckets of each user. *)
Theorem analyze_records_app (records1 records2 : list record) :
  overall (analyze_records (records1 ++ records2))
  = overall_add (overall (analyze_records records1))
                (overall (analyze_records records2))
  ∧ ∀ k, bucket_of (user_stats (analyze_records (records1 ++ records2))) k
         = bucket_add (bucket_of (user_stats (analyze_records records1)) k)
                      (bucket_of (user_stats (analyze_records records2)) k).
Proof.
  split.
  - unfold analyze_records, overall_add. simpl.
    rewrite !sum_if_app, length_app. f_equal; lia.
  - intros k. rewrite !bucket_of_analyze, filter_app.
    rewrite !fold_count_into_closed, !sum_if_app, length_app.
    unfold bucket_add. simpl. f_equal; lia.
Qed.

Lemma count_record_same_fields (m : gmap pyval UserStats.t) (r r' : record) :
  same_fields r r' → count_record m r = count_record m r'.
Proof.
  intros (Hu & Hs & Hp & He).
  unfold count_record, count_into, user_key, get_default, get.
  by rewrite Hu, Hs, Hp, He.
Qed.

Lemma sum_if_Forall2 (cond : record → bool) (l l' : list record) :
  Forall2 (λ r r', cond r = cond r') l l' → sum_if cond l = sum_if cond l'.
Proof.
  induction 1 as [| r r' l l' Hr _ IH]; [reflexivity |].
  by rewrite !sum_if_cons, Hr, IH.
Qed.

(** X9: the analysis reads only [user_name], [lusha_api_success],
    [phone_found] and [enrichment_source]: two lists of documents that
    agree on these four fields, document by document, have the same
    analysis. *)
Theorem analyze_records_same_fields (records records' : list record) :
  Forall2 same_fields records records' →
  analyze_records records = analyze_records records'.
Proof.
  intros Hsame.
  assert (∀ m, fold_left count_record records m
               = fold_left count_record records' m) as Husers.
  { induction Hsame as [| r r' l l' Hr _ IH]; intros m; [reflexivity |].
    simpl. by rewrite (count_record_same_fields m r r' Hr), IH. }
  assert (∀ cond : record → bool,
            (∀ r r', same_fields r r' → cond r = cond r') →
            sum_if cond records = sum_if cond records') as Hsum.
  { intros cond Hcond. apply sum_if_Forall2.
    eapply Forall2_impl; [exact Hsame | exact Hcond]. }
  unfold analyze_records. rewrite Husers, (Forall2_length _ _ _ Hsame).
  rewrite !(Hsum _); [reflexivity | ..];
    intros r r' (Hu & Hs & Hp & He); unfold get; by rewrite ?Hs, ?Hp, ?He.
Qed.

Lemma analyze_records_same_fields_witness :
  Forall2 same_fields
    [ ({[ "user_name" := PStr "alice"; "phone_found" := PBool true;
          "_id" := PStr "65b9f3" ]} : record) ]
    [ ({[ "user_name" := PStr "alice"; "phone_found" := PBool true;
          "company" := PStr "Acme" ]} : record) ]
  ∧ analyze_records
      [ ({[ "user_name" := PStr "alice"; "phone_found" := PBool true;
            "_id" := PStr "65b9f3" ]} : record) ]
    = analyze_records
      [ ({[ "user_name" := PStr "alice"; "phone_found" := PBool true;
            "company" := PStr "Acme" ]} : record) ].
Proof.
  assert (Forall2 same_fields
            [ ({[ "user_name" := PStr "alice"; "phone_found" := PBool true;
                  "_id" := PStr "65b9f3" ]} : record) ]
            [ ({[ "user_name" := PStr "alice"; "phone_found" := PBool true;
                  "company" := PStr "Acme" ]} : record) ]) as Hsame.
  { repeat constructor; vm_compute; reflexivity. }
  split; [exact Hsame |].
  exact (analyze_records_same_fields _ _ Hsame).
Defined.

(** * Further properties of the report *)

Lemma item_lt_kind (x y : pyval * UserStats.t) :
  kind_of x.1 ≠ kind_of y.1 → item_lt x y = None.
Proof.
  destruct x as [[| b | s] v], y as [[| c | t] w]; simpl; intros Hkind;
    try done; unfold item_lt; simpl; by rewrite decide_False.
Qed.

Lemma item_lt_bool_ordered (x y : pyval * UserStats.t) :
  is_bool x.1 → is_bool y.1 → x.1 ≠ y.1 →
  item_lt x y = Some true
  ∨ (item_lt x y = Some false ∧ item_lt y x = Some true).
Proof.
  destruct x as [[| b | s] v], y as [[| c | t] w]; simpl; try tauto.
  intros _ _ Hne. unfold item_lt; simpl.
  rewrite !decide_False by congruence.
  destruct b, c; simpl; auto; congruence.
Qed.

(** Once the sorted part holds names of one kind, a later name of another
    kind makes the sort raise. *)
Lemma sorted_mixed_acc (l acc : list (pyval * UserStats.t)) (c : name_kind) :
  acc ≠ [] → (∀ a, a ∈ acc → kind_of a.1 = c) →
  Exists (λ z, kind_of z.1 ≠ c) l →
  foldl (λ acc x, acc' ← acc; sorted_insert item_lt x acc') (Some acc) l
  = None.
Proof.
  revert acc. induction l as [| z l IH]; intros acc Hacc Hkind Hex.
  { inversion Hex. }
  rewrite sorted_step. destruct acc as [| a acc]; [done |].
  destruct (decide (kind_of z.1 = c)) as [Hz | Hz].
  - apply Exists_cons in Hex as [Hex | Hex]; [done |].
    destruct (sorted_insert item_lt z (a :: acc)) as [acc' |] eqn:Hins;
      [| apply sorted_aborted].
    apply sorted_insert_Permutation in Hins. apply IH; [| | done].
    + intros ->. by apply Permutation_nil_cons in Hins.
    + intros b Hb. rewrite Hins in Hb.
      apply elem_of_cons in Hb as [-> | Hb]; [done | by apply Hkind].
  - rewrite sorted_insert_raise; [apply sorted_aborted |].
    apply item_lt_kind. rewrite (Hkind a) by left. done.
Qed.

(** Two or more items whose names are neither all strings nor all booleans
    do not sort. *)
Lemma sorted_mixed (l : list (pyval * UserStats.t)) :
  NoDup (l.*1) → (2 ≤ length l)%nat →
  ¬ Forall (λ x, is_str x.1) l → ¬ Forall (λ x, is_bool x.1) l →
  sorted item_lt l = None.
Proof.
  intros Hnodup Hlen Hstr Hbool. unfold sorted.
  destruct l as [| x [| y l]]; simpl in Hlen; [lia | lia |].
  rewrite sorted_step. change (sorted_insert item_lt x []) with (Some [x]).
  apply (sorted_mixed_acc _ _ (kind_of x.1)); [done | |].
  { intros a Ha. by apply list_elem_of_singleton in Ha as ->. }
  destruct (decide (Exists (λ z, kind_of z.1 ≠ kind_of x.1) (y :: l)))
    as [Hex | Hall]; [done | exfalso].
  apply not_Exists_Forall in Hall; [| intros z; apply _].
  assert (Forall (λ z, kind_of z.1 = kind_of x.1) (x :: y :: l)) as Hsame.
  { constructor; [done |]. eapply Forall_impl; [exact Hall |].
    intros z Hz. simpl in Hz. by destruct (decide (kind_of z.1 = kind_of x.1)). }
  destruct (kind_of x.1) eqn:Hx.
  - simpl in Hnodup. apply NoDup_cons in Hnodup as [Hnot _]. apply Hnot.
    apply Forall_cons in Hsame as [_ Hsame].
    apply Forall_cons in Hsame as [Hy _].
    destruct x as [[| |] ?], y as [[| |] ?]; simpl in *; try done. left.
  - apply Hbool. eapply Forall_impl; [exact Hsame |].
    intros [[| |] ?]; simpl; done.
  - apply Hstr. eapply Forall_impl; [exact Hsame |].
    intros [[| |] ?]; simpl; done.
Qed.

Lemma sorted_items_bool (m : gmap pyval UserStats.t) :
  map_Forall (λ k _, is_bool k) m →
  is_Some (sorted item_lt (map_to_list m)).
Proof.
  intros Hbool.
  destruct (sorted_correct item_lt item_lt_trans (map_to_list m))
    as (items & Hsorted & _); [| apply NoDup_map_to_list | by eauto].
  intros [k v] [k' v'] Hx Hy Hne.
  apply elem_of_map_to_list in Hx, Hy.
  apply item_lt_bool_ordered; simpl; [by eapply Hbool | by eapply Hbool |].
  intros ->. apply Hne. f_equal. congruence.
Qed.

Lemma sorted_items_comparable (m : gmap pyval UserStats.t) :
  names_comparable m ↔ is_Some (sorted item_lt (map_to_list m)).
Proof.
  split.
  - intros [Hsize | [Hstr | Hbool]].
    + rewrite <- length_map_to_list in Hsize.
      destruct (map_to_list m) as [| x [| y l]]; simpl in Hsize;
        [by eexists | by eexists | lia].
    + destruct (sorted_items_str m Hstr) as (items & -> & _). by eexists.
    + by apply sorted_items_bool.
  - intros Hsome. destruct (decide (names_comparable m)) as [| Hnot]; [done |].
    exfalso. rewrite sorted_mixed in Hsome.
    + by destruct Hsome.
    + apply NoDup_fst_map_to_list.
    + rewrite length_map_to_list.
      destruct (decide (size m ≤ 1)%nat); [| lia].
      exfalso. apply Hnot. by left.
    + intros Hstr. apply Hnot. right. left.
      apply map_Forall_to_list. eapply Forall_impl; [exact Hstr |].
      by intros [k v].
    + intros Hbool. apply Hnot. right. right.
      apply map_Forall_to_list. eapply Forall_impl; [exact Hbool |].
      by intros [k v].
Qed.

Lemma generate_csv_result (env : Env) (analysis : AnalysisResult)
    (st : State) :
  (generate_csv env analysis st).1
  = if decide (names_comparable (user_stats analysis))
    then Ok (report_name env) else Raise TypeError.
Proof.
  rewrite generate_csv_run.
  pose proof (sorted_items_comparable (user_stats analysis)) as Hiff.
  destruct (sorted item_lt _) as [items |].
  - rewrite decide_True; [reflexivity |]. apply Hiff. by eexists.
  - rewrite decide_False; [reflexivity |].
    intros H. apply Hiff in H. by destruct H.
Qed.


Lemma generate_csv_state (env : Env) (analysis : AnalysisResult)
    (st : State) :
  let '(res, st') := generate_csv env analysis st in
  trace st' = trace st
  ∧ (∀ name, name ≠ report_name env → files st' !! name = files st !! name)
  ∧ ∃ rows,
      files st' !! report_name env
      = Some (report_head (overall analysis) ++ rows)
      ∧ length rows
        = match res with
          | Ok _ => size (user_stats analysis)
          | Raise _ => 0%nat
          end.
Proof.
  rewrite generate_csv_run.
  destruct (sorted_items_comparable (user_stats analysis)) as [_ Hsome].
  destruct (sorted item_lt (map_to_list (user_stats analysis)))
    as [items |] eqn:Hsorted; simpl.
  - split; [reflexivity |]. split.
    { intros name Hne. by rewrite lookup_insert_ne. }
    exists (user_row <$> items). rewrite lookup_insert_eq. split; [done |].
    rewrite length_fmap, <- length_map_to_list.
    apply Permutation_length.
    assert (names_comparable (user_stats analysis)) as Hcmp
      by (apply Hsome; by eexists).
    clear Hsome. revert Hsorted. unfold sorted.
    generalize (map_to_list (user_stats analysis)). intros l.
    assert (∀ acc items,
              foldl (λ acc x, acc' ← acc; sorted_insert item_lt x acc')
                    (Some acc) l = Some items → items ≡ₚ acc ++ l) as Hgo.
    { induction l as [| x l IH]; intros acc its; simpl.
      - intros [= ->]. by rewrite app_nil_r.
      - destruct (sorted_insert item_lt x acc) as [acc' |] eqn:Hins; simpl.
        + intros H. apply IH in H. rewrite H.
          apply sorted_insert_Permutation in Hins. rewrite Hins.
          simpl. apply Permutation_middle.
        + by rewrite sorted_aborted. }
    intros H. by apply Hgo in H.
  - split; [reflexivity |]. split.
    { intros name Hne. by rewrite lookup_insert_ne. }
    exists []. rewrite lookup_insert_eq. split; reflexivity.
Qed.


(** X12: the report replaces whatever a run already left under the same
    name: a second [generate_csv] in the same second, of any analysis,
    gives the state a single call gives. *)
Theorem generate_csv_overwrites (env : Env) (analysis analysis' : AnalysisResult)
    (st : State) :
  generate_csv env analysis (generate_csv env analysis' st).2
  = generate_csv env analysis st.
Proof.
  rewrite !generate_csv_run.
  destruct (sorted item_lt (map_to_list (user_stats analysis')));
    destruct (sorted item_lt (map_to_list (user_stats analysis)));
    simpl; by rewrite insert_insert_eq.
Qed.

(** * Further properties of the mail step *)

Lemma with_events_nil (st : State) : with_events st [] = st.
Proof. destruct st. unfold with_events. simpl. by rewrite app_nil_r. Qed.

Lemma with_events_app (st : State) (evs evs' : list event) :
  with_events (with_events st evs) evs' = with_events st (evs ++ evs').
Proof. unfold with_events. simpl. by rewrite app_assoc. Qed.

Lemma emit_run (e : event) (st : State) : emit e st = (Ok (), with_events st [e]).
Proof. reflexivity. Qed.

(** The SMTP conversation with a host: the steps up to and including the
    one the server fails at, or all four. *)
Lemma smtp_session_run (env : Env) (self : EmailService) (msg : message)
    (host : string) (st : State) :
  smtp_server self = Some host → host ≠ "" →
  let steps := [ Connect host (smtp_port self); StartTls;
                 Login (smtp_username self) (smtp_password self);
                 SendMessage msg ] in
  smtp_session env self msg st
  = match smtp_fault env with
    | None => (Ok (), with_events st (Smtp <$> steps))
    | Some AtConnect => (Raise SMTPException, with_events st (Smtp <$> take 1 steps))
    | Some AtStartTls => (Raise SMTPException, with_events st (Smtp <$> take 2 steps))
    | Some AtLogin => (Raise SMTPException, with_events st (Smtp <$> take 3 steps))
    | Some AtSend => (Raise SMTPException, with_events st (Smtp <$> steps))
    end.
Proof.
  intros Hserver Hhost steps. unfold smtp_session. rewrite Hserver.
  unfold truthy. rewrite bool_decide_eq_false_2 by done. simpl.
  unfold smtp_do, bind, emit, raise, ret, with_events.
  destruct (smtp_fault env) as [[] |]; simpl;
    rewrite <- ?app_assoc; reflexivity.
Qed.

Lemma smtp_session_no_host (env : Env) (self : EmailService) (msg : message)
    (st : State) :
  truthy (smtp_server self) = false →
  smtp_session env self msg st = (Raise SMTPServerDisconnected, st).
Proof.
  unfold smtp_session. destruct (smtp_server self) as [host |]; [| done].
  intros ->. reflexivity.
Qed.

Lemma send_email_result (env : Env) (self : EmailService)
    (to_email : option string) (subject body : string)
    (from_email cc_email bcc_email : option string)
    (attachment : option (list row)) (filename : option string)
    (is_html : bool) (st : State) :
  let '(res, st') :=
    send_email env self to_email subject body from_email cc_email bcc_email
               attachment filename is_html st in
  res = Ok (truthy (smtp_server self) && bool_decide (smtp_fault env = None))
  ∧ files st' = files st
  ∧ length (printed (trace st'))
    = (length (printed (trace st))
       + if truthy (smtp_server self) && bool_decide (smtp_fault env = None)
         then 0 else 1)%nat.
Proof.
  unfold send_email, try_except, bind.
  set (msg := {| msg_subtype := _ |}).
  destruct (truthy (smtp_server self)) eqn:Hhost.
  - destruct (smtp_server self) as [host |] eqn:Hserver; [| done].
    assert (host ≠ "") as Hne.
    { intros ->. simpl in Hhost. done. }
    rewrite (smtp_session_run env self msg host st Hserver Hne).
    destruct (smtp_fault env) as [[] |]; simpl;
      unfold print, emit, ret, with_events; simpl;
      unfold printed; rewrite ?omap_app; simpl;
      rewrite ?length_app; simpl; repeat split; lia.
  - rewrite smtp_session_no_host by done. simpl.
    unfold print, emit, ret. simpl.
    unfold printed. rewrite omap_app, length_app. simpl. repeat split; lia.
Qed.


(** [send_email_with_csv] past its configuration check: the file is read
    and handed to [send_email]; a missing file is printed as an error. *)
Lemma send_email_with_csv_run (env : Env) (csv_filename : string)
    (analysis : AnalysisResult) (st : State) :
  email_configured (config env) = true →
  send_email_with_csv env csv_filename analysis st
  = match files st !! csv_filename with
    | None =>
        (Ok false, with_events st [Printed (ErrorSending FileNotFoundError)])
    | Some csv_data =>
        send_email env (EmailService_init env) (RECIPIENT_EMAIL (config env))
                   ("API Performance Report - " +:+ subject_stamp env)
                   (email_body (overall analysis)) None None None
                   (Some csv_data) (Some csv_filename) false st
    end.
Proof.
  intros Hcfg. unfold send_email_with_csv, email_configured in *.
  rewrite Hcfg. simpl negb. cbv iota.
  unfold try_except at 1. unfold bind, read_file.
  destruct (files st !! csv_filename) as [csv_data |]; [| reflexivity].
  pose proof (send_email_result env (EmailService_init env)
                (RECIPIENT_EMAIL (config env))
                ("API Performance Report - " +:+ subject_stamp env)
                (email_body (overall analysis)) None None None
                (Some csv_data) (Some csv_filename) false st) as Hout.
  destruct (send_email _ _ _ _ _ _ _ _ _ _ _ st) as [res st'].
  destruct Hout as (-> & _). reflexivity.
Qed.

(** X14: with the mail settings in place but no file under the given
    name, [send_email_with_csv] prints the error and returns [False]; no
    step of an SMTP conversation is taken. *)
Theorem send_email_with_csv_no_file (env : Env) (csv_filename : string)
    (analysis : AnalysisResult) (st : State) :
  email_configured (config env) = true →
  files st !! csv_filename = None →
  send_email_with_csv env csv_filename analysis st
  = (Ok false, with_events st [Printed (ErrorSending FileNotFoundError)]).
Proof.
  intros Hcfg Hfile. rewrite send_email_with_csv_run by done.
  by rewrite Hfile.
Qed.

Lemma send_email_with_csv_no_file_witness :
  email_configured (config (example_env example_config scenario_b)) = true
  ∧ files empty_state !! "report.csv" = None
  ∧ send_email_with_csv (example_env example_config scenario_b) "report.csv"
                        (analyze_records scenario_b) empty_state
    = (Ok false,
       with_events empty_state [Printed (ErrorSending FileNotFoundError)]).
Proof.
  assert (email_configured (config (example_env example_config scenario_b))
          = true) as Hcfg by reflexivity.
  assert (files empty_state !! "report.csv" = None) as Hfile by reflexivity.
  split; [exact Hcfg |]. split; [exact Hfile |].
  exact (send_email_with_csv_no_file _ "report.csv"
           (analyze_records scenario_b) empty_state Hcfg Hfile).
Defined.

Lemma send_email_with_csv_result (env : Env) (csv_filename : string)
    (analysis : AnalysisResult) (st : State) :
  let '(res, st') := send_email_with_csv env csv_filename analysis st in
  res = Ok (email_configured (config env)
            && bool_decide (is_Some (files st !! csv_filename))
            && truthy (SMTP_SERVER (config env))
            && bool_decide (smtp_fault env = None))
  ∧ files st' = files st.
Proof.
  destruct (email_configured (config env)) eqn:Hcfg.
  - rewrite send_email_with_csv_run by done.
    destruct (files st !! csv_filename) as [csv_data |] eqn:Hfile.
    + pose proof (send_email_result env (EmailService_init env)
                    (RECIPIENT_EMAIL (config env))
                    ("API Performance Report - " +:+ subject_stamp env)
                    (email_body (overall analysis)) None None None
                    (Some csv_data) (Some csv_filename) false st) as Hout.
      destruct (send_email _ _ _ _ _ _ _ _ _ _ _ st) as [res st'].
      destruct Hout as (-> & -> & _).
      rewrite (bool_decide_eq_true_2 (is_Some (Some csv_data)))
        by (by eexists).
      simpl. split; reflexivity.
    + rewrite bool_decide_eq_false_2 by (by intros [? ?]). done.
  - rewrite send_email_with_csv_falsy.
    + done.
    + unfold email_configured in Hcfg.
      destruct (truthy (SMTP_PASSWORD _)), (truthy (DEFAULT_FROM_EMAIL _)),
               (truthy (RECIPIENT_EMAIL _)); simpl in Hcfg; auto; discriminate.
Qed.

(** X15: [send_email_with_csv] never raises and changes no file; it
    returns [True] exactly when the three mail settings are in place, the
    file exists, the service has a host and the server fails at no
    stage. *)
Theorem send_email_with_csv_outcome (env : Env) (csv_filename : string)
    (analysis : AnalysisResult) (st : State) :
  let '(res, st') := send_email_with_csv env csv_filename analysis st in
  res = Ok (email_configured (config env)
            && bool_decide (is_Some (files st !! csv_filename))
            && truthy (SMTP_SERVER (config env))
            && bool_decide (smtp_fault env = None))
  ∧ files st' = files st.
Proof. intros; apply send_email_with_csv_result; assumption. Qed.

Lemma send_email_with_csv_delivery (env : Env) (csv_filename host : string)
    (csv_data : list row) (analysis : AnalysisResult) (st : State) :
  email_configured (config env) = true →
  SMTP_SERVER (config env) = Some host → host ≠ "" →
  smtp_fault env = None →
  files st !! csv_filename = Some csv_data →
  csv_data ≠ [] → csv_filename ≠ "" →
  send_email_with_csv env csv_filename analysis st
  = (Ok true,
     with_events st
       (Smtp <$> delivery env host
                          (report_message env analysis csv_filename csv_data))).
Proof.
  intros Hcfg Hserver Hhost Hfault Hfile Hdata Hname.
  rewrite send_email_with_csv_run by done. rewrite Hfile.
  unfold send_email, try_except, bind.
  rewrite (smtp_session_run env (EmailService_init env) _ host st Hserver Hhost).
  rewrite Hfault. unfold ret, py_or, truthy. simpl.
  rewrite !bool_decide_eq_false_2 by done. reflexivity.
Qed.

(** X16: with the settings in place, a host, a report file that is not
    empty and a server that does not fail, [send_email_with_csv] returns
    [True] after exactly one SMTP conversation: connect, STARTTLS, login
    with the sender address and the password, and one message from the
    sender to the recipient that carries the summary as plain text and the
    file as attachment under its name. *)
Theorem send_email_with_csv_delivers (env : Env) (csv_filename host : string)
    (csv_data : list row) (analysis : AnalysisResult) (st : State) :
  email_configured (config env) = true →
  SMTP_SERVER (config env) = Some host → host ≠ "" →
  smtp_fault env = None →
  files st !! csv_filename = Some csv_data →
  csv_data ≠ [] → csv_filename ≠ "" →
  send_email_with_csv env csv_filename analysis st
  = (Ok true,
     with_events st
       (Smtp <$> delivery env host
                          (report_message env analysis csv_filename csv_data))).
Proof. intros; apply send_email_with_csv_delivery; assumption. Qed.

Lemma send_email_with_csv_delivers_witness :
  email_configured (config scenario_env) = true
  ∧ SMTP_SERVER (config scenario_env) = Some "smtp.example.org"
  ∧ "smtp.example.org" ≠ ""
  ∧ smtp_fault scenario_env = None
  ∧ files (generate_csv scenario_env (analyze_records scenario_b)
                        empty_state).2
    !! report_name scenario_env
    = Some (report_rows scenario_env (analyze_records scenario_b) empty_state)
  ∧ report_rows scenario_env (analyze_records scenario_b) empty_state ≠ []
  ∧ report_name scenario_env ≠ ""
  ∧ send_email_with_csv scenario_env (report_name scenario_env)
      (analyze_records scenario_b)
      (generate_csv scenario_env (analyze_records scenario_b) empty_state).2
    = (Ok true,
       with_events
         (generate_csv scenario_env (analyze_records scenario_b) empty_state).2
         (Smtp <$> delivery scenario_env "smtp.example.org"
                     (report_message scenario_env (analyze_records scenario_b)
                        (report_name scenario_env)
                        (report_rows scenario_env (analyze_records scenario_b)
                                     empty_state)))).
Proof.
  assert (email_configured (config scenario_env) = true) as H1 by reflexivity.
  assert (SMTP_SERVER (config scenario_env) = Some "smtp.example.org") as H2
    by reflexivity.
  assert ("smtp.example.org" ≠ "") as H3 by discriminate.
  assert (smtp_fault scenario_env = None) as H4 by reflexivity.
  assert (files (generate_csv scenario_env (analyze_records scenario_b)
                              empty_state).2
          !! report_name scenario_env
          = Some (report_rows scenario_env (analyze_records scenario_b)
                              empty_state))
    as H5 by (vm_compute; reflexivity).
  assert (report_rows scenario_env (analyze_records scenario_b) empty_state
          ≠ []) as H6 by (vm_compute; discriminate).
  assert (report_name scenario_env ≠ "") as H7 by (vm_compute; discriminate).
  repeat (split; [assumption |]).
  exact (send_email_with_csv_delivers scenario_env (report_name scenario_env)
           "smtp.example.org"
           (report_rows scenario_env (analyze_records scenario_b) empty_state)
           (analyze_records scenario_b) _ H1 H2 H3 H4 H5 H6 H7).
Defined.

Lemma send_attempts_app (t u : list event) :
  send_attempts (t ++ u) = send_attempts t ++ send_attempts u.
Proof. apply omap_app. Qed.

(** X17: when the server fails before the message is handed over (at the
    connection, at STARTTLS or at the login), [send_email_with_csv] returns
    [False] and no message is handed to the server. *)
Theorem send_email_with_csv_fault (env : Env) (csv_filename : string)
    (analysis : AnalysisResult) (st : State) (stage : smtp_stage) :
  smtp_fault env = Some stage → stage ≠ AtSend →
  let '(res, st') := send_email_with_csv env csv_filename analysis st in
  res = Ok false ∧ send_attempts (trace st') = send_attempts (trace st).
Proof.
  intros Hfault Hstage.
  assert (∀ evs, send_attempts evs = [] →
                 send_attempts (trace (with_events st evs))
                 = send_attempts (trace st)) as Hquiet.
  { intros evs Hevs. simpl. by rewrite send_attempts_app, Hevs, app_nil_r. }
  destruct (email_configured (config env)) eqn:Hcfg.
  - rewrite send_email_with_csv_run by done.
    destruct (files st !! csv_filename) as [csv_data |];
      [| split; [reflexivity | by apply Hquiet]].
    unfold send_email, try_except, bind.
    destruct (truthy (SMTP_SERVER (config env))) eqn:Hhost.
    + destruct (SMTP_SERVER (config env)) as [host |] eqn:Hserver; [| done].
      assert (host ≠ "") as Hne by (intros ->; simpl in Hhost; done).
      rewrite (smtp_session_run env (EmailService_init env) _ host st
                 Hserver Hne).
      rewrite Hfault.
      destruct stage; [| | | done]; cbn [take fmap list_fmap];
        unfold print, bind, ret; rewrite emit_run, with_events_app;
        (split; [reflexivity | by apply Hquiet]).
    + rewrite smtp_session_no_host by done.
      unfold print, bind, ret. rewrite emit_run.
      split; [reflexivity | by apply Hquiet].
  - rewrite send_email_with_csv_falsy.
    + split; [reflexivity | by apply (Hquiet missing_email_configuration)].
    + unfold email_configured in Hcfg.
      destruct (truthy (SMTP_PASSWORD _)), (truthy (DEFAULT_FROM_EMAIL _)),
               (truthy (RECIPIENT_EMAIL _)); simpl in Hcfg; auto; discriminate.
Qed.

Lemma send_email_with_csv_fault_witness :
  smtp_fault login_refused_env = Some AtLogin
  ∧ AtLogin ≠ AtSend
  ∧ let '(res, st') :=
      send_email_with_csv login_refused_env (report_name login_refused_env)
        (analyze_records scenario_b)
        (generate_csv login_refused_env (analyze_records scenario_b)
                      empty_state).2 in
    res = Ok false
    ∧ send_attempts (trace st')
      = send_attempts
          (trace (generate_csv login_refused_env (analyze_records scenario_b)
                               empty_state).2).
Proof.
  assert (smtp_fault login_refused_env = Some AtLogin) as H1 by reflexivity.
  assert (AtLogin ≠ AtSend) as H2 by discriminate.
  split; [exact H1 |]. split; [exact H2 |].
  exact (send_email_with_csv_fault login_refused_env
           (report_name login_refused_env) (analyze_records scenario_b)
           (generate_csv login_refused_env (analyze_records scenario_b)
                         empty_state).2 AtLogin H1 H2).
Defined.

(** * Further properties of the run *)

Lemma connect_to_mongodb_result (env : Env) (st : State) :
  let '(res, st') := connect_to_mongodb env st in
  if mongo_reached env
  then res = Ok (Some Collection) ∧ st' = st
  else res = Ok None ∧ ∃ o, st' = with_events st [Printed o].
Proof.
  unfold connect_to_mongodb, mongo_reached, mongo_configured, try_except.
  destruct (truthy (MONGO_URI (config env))),
           (truthy (DB_NAME (config env))),
           (truthy (COLLECTION_NAME (config env))); simpl;
    try (split; [reflexivity | eexists; reflexivity]).
  destruct (mongo_fault env) as [e |]; simpl.
  - split; [reflexivity | eexists; reflexivity].
  - split; reflexivity.
Qed.

(** X18: [connect_to_mongodb] never raises.  It returns the collection,
    leaving the state untouched, exactly when the three store settings are
    in place and the store answers; otherwise it prints one diagnostic and
    returns [None]. *)
Theorem connect_to_mongodb_outcome (env : Env) (st : State) :
  let '(res, st') := connect_to_mongodb env st in
  if mongo_reached env
  then res = Ok (Some Collection) ∧ st' = st
  else res = Ok None ∧ ∃ o, st' = with_events st [Printed o].
Proof. intros; apply connect_to_mongodb_result; assumption. Qed.

Lemma main_unreached_run (env : Env) (st : State) :
  mongo_reached env = false →
  main env st = (Ok (), (connect_to_mongodb env st).2).
Proof.
  intros Hreach. pose proof (connect_to_mongodb_result env st) as Hconn.
  unfold main, bind. destruct (connect_to_mongodb env st) as [res st'].
  rewrite Hreach in Hconn. destruct Hconn as [-> _]. reflexivity.
Qed.

Lemma main_reached_run (env : Env) (st : State) :
  mongo_reached env = true →
  window_records env ≠ [] →
  main env st
  = let analysis := analyze_records (window_records env) in
    match generate_csv env analysis st with
    | (Ok csv_filename, st1) =>
        (Ok (), (send_email_with_csv env csv_filename analysis st1).2)
    | (Raise e, st1) => (Raise e, st1)
    end.
Proof.
  intros Hreach Hrecords.
  pose proof (connect_to_mongodb_result env st) as Hconn.
  unfold main, bind at 1. destruct (connect_to_mongodb env st) as [res st'].
  rewrite Hreach in Hconn. destruct Hconn as [-> ->].
  unfold fetch_last_24_hours_records, bind at 1, ret at 1.
  rewrite bool_decide_eq_false_2
    by (by destruct (window_records env)).
  unfold bind at 1.
  destruct (generate_csv env _ st) as [[csv_filename | e] st1]; [| done].
  unfold bind.
  pose proof (send_email_with_csv_result env csv_filename
                (analyze_records (window_records env)) st1) as Hout.
  destruct (send_email_with_csv env csv_filename _ st1) as [res st2].
  destruct Hout as [-> _]. reflexivity.
Qed.


(** X20: when the store settings are incomplete or the store cannot be
    reached, [main] prints one diagnostic and does nothing else, whatever
    the window holds: no file is written and no mail is sent. *)
Theorem main_store_unavailable (env : Env) (st : State) :
  mongo_reached env = false →
  ∃ o, main env st = (Ok (), with_events st [Printed o]).
Proof.
  intros Hreach. rewrite main_unreached_run by done.
  pose proof (connect_to_mongodb_result env st) as Hconn.
  destruct (connect_to_mongodb env st) as [res st'].
  rewrite Hreach in Hconn. destruct Hconn as [_ [o ->]]. by exists o.
Qed.

Lemma main_store_unavailable_witness :
  mongo_reached store_down_env = false
  ∧ ∃ o, main store_down_env empty_state
         = (Ok (), with_events empty_state [Printed o]).
Proof.
  assert (mongo_reached store_down_env = false) as H by reflexivity.
  split; [exact H |].
  exact (main_store_unavailable store_down_env empty_state H).
Defined.

(** X21: the complete run.  With the collection reached, a window that is
    not empty, user names that can be ordered, the mail settings and a
    host in place and a server that does not fail, [main] returns after
    writing the report and delivering it in one SMTP conversation, the
    report file being the attachment of the one message. *)
Theorem main_delivers_report (env : Env) (host : string) (st : State) :
  let analysis := analyze_records (window_records env) in
  mongo_reached env = true →
  window_records env ≠ [] →
  names_comparable (user_stats analysis) →
  email_configured (config env) = true →
  SMTP_SERVER (config env) = Some host → host ≠ "" →
  smtp_fault env = None →
  main env st
  = (Ok (),
     with_events (generate_csv env analysis st).2
       (Smtp <$> delivery env host
                   (report_message env analysis (report_name env)
                                   (report_rows env analysis st)))).
Proof.
  intros analysis Hreach Hrecords Hcmp Hcfg Hserver Hhost Hfault.
  rewrite main_reached_run by done. fold analysis.
  pose proof (generate_csv_result env analysis st) as Hgen.
  pose proof (generate_csv_state env analysis st) as Heff.
  unfold report_rows.
  destruct (generate_csv env analysis st) as [res st1]. simpl in *.
  rewrite decide_True in Hgen by done. subst res.
  destruct Heff as (_ & _ & rows & Hfile & _).
  rewrite Hfile. simpl.
  rewrite (send_email_with_csv_delivery env (report_name env) host
             (report_head (overall analysis) ++ rows) analysis st1);
    done.
Qed.

Lemma main_delivers_report_witness :
  mongo_reached scenario_env = true
  ∧ window_records scenario_env ≠ []
  ∧ names_comparable
      (user_stats (analyze_records (window_records scenario_env)))
  ∧ email_configured (config scenario_env) = true
  ∧ SMTP_SERVER (config scenario_env) = Some "smtp.example.org"
  ∧ "smtp.example.org" ≠ ""
  ∧ smtp_fault scenario_env = None
  ∧ main scenario_env empty_state
    = (Ok (),
       with_events
         (generate_csv scenario_env
            (analyze_records (window_records scenario_env)) empty_state).2
         (Smtp <$> delivery scenario_env "smtp.example.org"
                     (report_message scenario_env
                        (analyze_records (window_records scenario_env))
                        (report_name scenario_env)
                        (report_rows scenario_env
                           (analyze_records (window_records scenario_env))
                           empty_state)))).
Proof.
  assert (mongo_reached scenario_env = true) as H1 by reflexivity.
  assert (window_records scenario_env ≠ []) as H2 by discriminate.
  assert (names_comparable
            (user_stats (analyze_records (window_records scenario_env))))
    as H3.
  { right. left. apply map_Forall_to_list. vm_compute. repeat constructor. }
  assert (email_configured (config scenario_env) = true) as H4 by reflexivity.
  assert (SMTP_SERVER (config scenario_env) = Some "smtp.example.org") as H5
    by reflexivity.
  assert ("smtp.example.org" ≠ "") as H6 by discriminate.
  assert (smtp_fault scenario_env = None) as H7 by reflexivity.
  repeat (split; [assumption |]).
  exact (main_delivers_report scenario_env "smtp.example.org" empty_state
           H1 H2 H3 H4 H5 H6 H7).
Defined.

(** X22: when the collection was reached and the user names of the fetched
    records cannot be ordered (a null name next to another user, say),
    [main] raises [TypeError]: the report is left with its head rows only,
    nothing is printed and no mail is sent. *)
Theorem main_unordered_names (env : Env) (st : State) :
  let analysis := analyze_records (window_records env) in
  mongo_reached env = true →
  ¬ names_comparable (user_stats analysis) →
  main env st
  = (Raise TypeError,
     {| files := <[report_name env := report_head (overall analysis)]> (files st);
        trace := trace st |}).
Proof.
  intros analysis Hreach Hcmp.
  assert (window_records env ≠ []) as Hrecords.
  { intros Hnil. apply Hcmp. left. unfold analysis. rewrite Hnil.
    unfold analyze_records; simpl. rewrite map_size_empty. lia. }
  rewrite main_reached_run by done. cbv zeta. fold analysis.
  rewrite generate_csv_run.
  destruct (sorted_items_comparable (user_stats analysis)) as [_ Hsome].
  destruct (sorted item_lt _) as [items |]; [| reflexivity].
  exfalso. apply Hcmp, Hsome. by eexists.
Qed.

Lemma main_unordered_names_witness :
  mongo_reached (example_env example_config null_and_alice) = true
  ∧ ¬ names_comparable
        (user_stats (analyze_records
                       (window_records
                          (example_env example_config null_and_alice))))
  ∧ main (example_env example_config null_and_alice) empty_state
    = (Raise TypeError,
       {| files :=
            <[report_name (example_env example_config null_and_alice) :=
                report_head
                  (overall (analyze_records
                              (window_records
                                 (example_env example_config null_and_alice))))]>
              (files empty_state);
          trace := trace empty_state |}).
Proof.
  assert (mongo_reached (example_env example_config null_and_alice) = true)
    as H1 by reflexivity.
  assert (¬ names_comparable
              (user_stats (analyze_records
                             (window_records
                                (example_env example_config null_and_alice)))))
    as H2.
  { intros H. apply sorted_items_comparable in H. vm_compute in H.
    by destruct H. }
  split; [exact H1 |]. split; [exact H2 |].
  exact (main_unordered_names (example_env example_config null_and_alice)
                              empty_state H1 H2).
Defined.

(** * The report read as a table *)

Lemma sorted_Permutation {A} (lt : A → A → option bool) (l items : list A) :
  sorted lt l = Some items → items ≡ₚ l.
Proof.
  unfold sorted.
  assert (∀ acc its,
            foldl (λ acc x, acc' ← acc; sorted_insert lt x acc') (Some acc) l
            = Some its → its ≡ₚ acc ++ l) as Hgo.
  { induction l as [| x l IH]; intros acc its; simpl.
    - intros [= ->]. by rewrite app_nil_r.
    - destruct (sorted_insert lt x acc) as [acc' |] eqn:Hins; simpl.
      + intros H. apply IH in H. rewrite H.
        apply sorted_insert_Permutation in Hins. rewrite Hins.
        simpl. apply Permutation_middle.
      + by rewrite sorted_aborted. }
  intros H. by apply Hgo in H.
Qed.

Lemma column_sum_user_rows (i : nat) (f : UserStats.t → Z)
    (items : list (pyval * UserStats.t)) :
  (∀ item, cell_int (default (Int 0) (user_row item !! i)) = f item.2) →
  column_sum i (user_row <$> items) = foldr (λ item acc, f item.2 + acc) 0 items.
Proof.
  intros Hcol. unfold column_sum.
  induction items as [| item items IH]; [reflexivity |].
  rewrite fmap_cons. cbn [foldr]. by rewrite IH, Hcol.
Qed.

Lemma sum_users_items (f : UserStats.t → Z) (m : gmap pyval UserStats.t)
    (items : list (pyval * UserStats.t)) :
  items ≡ₚ map_to_list m →
  foldr (λ item acc, f item.2 + acc) 0 items = sum_users f m.
Proof.
  intros Hperm. unfold sum_users. rewrite map_fold_foldr.
  transitivity (foldr (λ item acc, f item.2 + acc) 0 (map_to_list m)).
  - apply (foldr_permutation_proper (=) (λ item acc, f item.2 + acc) 0);
      [intros; lia | exact Hperm].
  - generalize (map_to_list m). intros l.
    induction l as [| [k v] l IH]; [reflexivity |]. simpl. by rewrite IH.
Qed.

(** X24: in every report [generate_csv] completes for the analysis of a
    list of records, the columns Total, Success, Lusha, Lusha Ph, Apollo,
    Apollo Ph and Total Ph of the user table add up to the values the
    overall summary shows for Total API Calls, Successful Calls, Lusha
    Calls, Lusha Phone Found, Apollo Calls, Apollo Phone Found and Phone
    Found Total. *)
Theorem report_columns_add_up (env : Env) (records : list record) (st : State) :
  names_comparable (user_stats (analyze_records records)) →
  let rows := report_rows env (analyze_records records) st in
  column_sum 1 (user_section rows) = summary_value 2 rows
  ∧ column_sum 2 (user_section rows) = summary_value 3 rows
  ∧ column_sum 4 (user_section rows) = summary_value 6 rows
  ∧ column_sum 5 (user_section rows) = summary_value 9 rows
  ∧ column_sum 6 (user_section rows) = summary_value 5 rows
  ∧ column_sum 7 (user_section rows) = summary_value 8 rows
  ∧ column_sum 8 (user_section rows) = summary_value 7 rows.
Proof.
  intros Hcmp rows. subst rows. unfold report_rows.
  rewrite generate_csv_run.
  apply sorted_items_comparable in Hcmp as [items Hsorted].
  rewrite Hsorted. cbn [snd files]. rewrite lookup_insert_eq.
  cbn [default from_option]. unfold id.
  apply sorted_Permutation in Hsorted.
  pose proof (user_sums_seven records) as Hsums. cbv zeta in Hsums.
  destruct Hsums as (H1 & H2 & H3 & H4 & H5 & H6 & H7).
  set (o := overall (analyze_records records)) in *.
  change (user_section (report_head o ++ (user_row <$> items)))
    with (user_row <$> items).
  change (summary_value 2 (report_head o ++ (user_row <$> items)))
    with (Overall.total_calls o).
  change (summary_value 3 (report_head o ++ (user_row <$> items)))
    with (Overall.successful_calls o).
  change (summary_value 6 (report_head o ++ (user_row <$> items)))
    with (Overall.lusha_calls o).
  change (summary_value 9 (report_head o ++ (user_row <$> items)))
    with (Overall.lusha_phone_found_total o).
  change (summary_value 5 (report_head o ++ (user_row <$> items)))
    with (Overall.apollo_calls o).
  change (summary_value 8 (report_head o ++ (user_row <$> items)))
    with (Overall.apollo_phone_found_total o).
  change (summary_value 7 (report_head o ++ (user_row <$> items)))
    with (Overall.phone_found_total o).
  rewrite (column_sum_user_rows 1 UserStats.total) by (by intros [k v]).
  rewrite (column_sum_user_rows 2 UserStats.success) by (by intros [k v]).
  rewrite (column_sum_user_rows 4 UserStats.lusha_calls) by (by intros [k v]).
  rewrite (column_sum_user_rows 5 UserStats.lusha_phone_found)
    by (by intros [k v]).
  rewrite (column_sum_user_rows 6 UserStats.apollo_calls) by (by intros [k v]).
  rewrite (column_sum_user_rows 7 UserStats.apollo_phone_found)
    by (by intros [k v]).
  rewrite (column_sum_user_rows 8 UserStats.phone_found) by (by intros [k v]).
  rewrite !(sum_users_items _ _ items Hsorted).
  rewrite H1, H2, H3, H4, H5, H6, H7. repeat split; reflexivity.
Qed.

Lemma report_columns_add_up_witness :
  names_comparable (user_stats (analyze_records scenario_b))
  ∧ column_sum 1 (user_section (report_rows scenario_env
                                  (analyze_records scenario_b) empty_state))
    = summary_value 2 (report_rows scenario_env (analyze_records scenario_b)
                                   empty_state).
Proof.
  assert (names_comparable (user_stats (analyze_records scenario_b))) as H.
  { right. left. apply map_Forall_to_list. vm_compute. repeat constructor. }
  split; [exact H |].
  exact (proj1 (report_columns_add_up scenario_env scenario_b empty_state H)).
Defined.

(** * The plain-text alternative of an HTML body *)

Lemma prefix_no_occurrence (c : ascii) (old s : string) :
  occurs c s = false → String.prefix (String c old) s = false.
Proof.
  destruct s as [| a s]; [reflexivity |]. simpl.
  intros Hocc. apply orb_false_iff in Hocc as [Ha _].
  apply bool_decide_eq_false in Ha.
  destruct (ascii_dec c a) as [-> | _]; [done | reflexivity].
Qed.

Lemma replace_no_occurrence (c : ascii) (old new s : string) :
  occurs c s = false → replace s (String c old) new = s.
Proof.
  unfold replace. induction s as [| a s IH]; [reflexivity |].
  intros Hocc. cbn [replace_go].
  rewrite (prefix_no_occurrence c old (String a s) Hocc).
  simpl in Hocc. apply orb_false_iff in Hocc as [_ Hocc].
  by rewrite IH.
Qed.

(** X23: in HTML mode [send_email] sends the body twice, as plain text
    and as HTML, in that order; a body without the character [<] is its
    own plain-text alternative. *)
Theorem send_email_html_parts (env : Env) (self : EmailService)
    (to_email : option string) (subject body host : string)
    (from_email cc_email bcc_email : option string) (st : State) :
  smtp_server self = Some host → host ≠ "" → smtp_fault env = None →
  occurs "<" body = false →
  let '(res, st') :=
    send_email env self to_email subject body from_email cc_email bcc_email
               None None true st in
  res = Ok true
  ∧ ∃ msg, send_attempts (trace st') = send_attempts (trace st) ++ [msg]
           ∧ msg_subtype msg = "alternative"
           ∧ msg_parts msg = [ MIMEText body "plain"; MIMEText body "html" ].
Proof.
  intros Hserver Hhost Hfault Hbody.
  unfold send_email, try_except, bind.
  rewrite (smtp_session_run env self _ host st Hserver Hhost), Hfault.
  unfold ret. split; [reflexivity |].
  eexists. split.
  { cbn [trace with_events]. rewrite send_attempts_app.
    cbn [send_attempts omap list_omap fmap list_fmap]. reflexivity. }
  split; [reflexivity |]. cbn [msg_parts].
  rewrite (replace_no_occurrence "<" "br>" nl body Hbody).
  rewrite (replace_no_occurrence "<" "p>" "" body Hbody).
  rewrite (replace_no_occurrence "<" "/p>" nl body Hbody).
  reflexivity.
Qed.

Lemma send_email_html_parts_witness :
  smtp_server (EmailService_init scenario_env) = Some "smtp.example.org"
  ∧ "smtp.example.org" ≠ ""
  ∧ smtp_fault scenario_env = None
  ∧ occurs "<" "Weekly figures attached." = false
  ∧ let '(res, st') :=
      send_email scenario_env (EmailService_init scenario_env)
                 (Some "ops@example.org") "Figures"
                 "Weekly figures attached." None None None None None true
                 empty_state in
    res = Ok true
    ∧ ∃ msg, send_attempts (trace st') = send_attempts (trace empty_state) ++ [msg]
             ∧ msg_subtype msg = "alternative"
             ∧ msg_parts msg = [ MIMEText "Weekly figures attached." "plain";
                                 MIMEText "Weekly figures attached." "html" ].
Proof.
  assert (smtp_server (EmailService_init scenario_env)
          = Some "smtp.example.org") as H1 by reflexivity.
  assert ("smtp.example.org" ≠ "") as H2 by discriminate.
  assert (smtp_fault scenario_env = None) as H3 by reflexivity.
  assert (occurs "<" "Weekly figures attached." = false) as H4
    by (vm_compute; reflexivity).
  repeat (split; [assumption |]).
  exact (send_email_html_parts scenario_env (EmailService_init scenario_env)
           (Some "ops@example.org") "Figures" "Weekly figures attached."
           "smtp.example.org" None None None empty_state H1 H2 H3 H4).
Defined.
